(** * Schema ASTs: smart constructors, ordering heuristics, derived operations
    and the parse-error model.

    A shallow embedding of [src/AST.ts] and of the [ParseResult] module,
    followed by the properties the specification states about them. *)

From Stdlib Require Import ZArith.
From stdpp Require Import gmap strings list sorting pretty.

#[local] Set Warnings "-register-all".
Local Open Scope string_scope.
Local Open Scope list_scope.
Local Open Scope nat_scope.

(** ** JavaScript data *)

(** A JS [symbol] is only ever compared by identity: it is modelled by the
    identity alone. *)
Definition Sym := positive.

(** JS numbers occurring as literals, keys and enum values are only carried
    around and compared; they are modelled as integers. *)
Definition JsNumber := Z.

(** [PropertyKey = string | number | symbol]. *)
Inductive PropertyKey : Type :=
| PKString (s : string)
| PKNumber (n : JsNumber)
| PKSymbol (s : Sym).

(** The result of [typeof key] on a property key, which is also the key domain
    of an index signature: ["string" | "number" | "symbol"]. *)
Inductive KeyType : Type := KString | KNumber | KSymbol.

Definition typeofKey (key : PropertyKey) : KeyType :=
  match key with
  | PKString _ => KString
  | PKNumber _ => KNumber
  | PKSymbol _ => KSymbol
  end.

(** Values of type [unknown]: the inputs of decoding, the [actual] of an error,
    the [meta] of a refinement and the values of an annotation map. *)
Inductive Value : Type :=
| VUndefined
| VNull
| VBoolean (b : bool)
| VNumber (n : JsNumber)
| VString (s : string)
| VBigInt (n : Z)
| VSymbol (s : Sym)
| VArray (items : list Value)
| VObject (entries : list (PropertyKey * Value)).

(** [Annotated["annotations"] : Record<string | symbol, unknown>]. *)
Abbreviation Annotations := (gmap (string + Sym) Value).

(** [RA.NonEmptyReadonlyArray<A> = readonly [A, ...Array<A>]]. *)
Record NonEmptyReadonlyArray (A : Type) : Type :=
  NonEmpty { headNonEmpty : A; tailNonEmpty : list A }.
Arguments NonEmpty {A} _ _.
Arguments headNonEmpty {A} _.
Arguments tailNonEmpty {A} _.

Definition toList {A} (self : NonEmptyReadonlyArray A) : list A :=
  headNonEmpty self :: tailNonEmpty self.

(** [[...self, a]] on a non-empty array. *)
Definition appendNonEmpty {A} (self : NonEmptyReadonlyArray A) (a : A)
  : NonEmptyReadonlyArray A :=
  NonEmpty (headNonEmpty self) (tailNonEmpty self ++ [a]).

(** ** Thrown exceptions *)

Inductive Exn : Type :=
| Error (message : string)
| TypeError (message : string).

Inductive result (A : Type) : Type :=
| Ok (a : A)
| Throw (e : Exn).
Arguments Ok {A} a.
Arguments Throw {A} e.

Definition bind {A B} (m : result A) (k : A -> result B) : result B :=
  match m with
  | Ok a => k a
  | Throw e => Throw e
  end.

#[export] Instance result_ret : MRet result := @Ok.
#[export] Instance result_bind : MBind result := fun A B k m => bind m k.

Definition isOk {A} (m : result A) : bool :=
  match m with Ok _ => true | Throw _ => false end.

(** ** The AST data model *)

(** [Literal = string | number | boolean | null | bigint]. *)
Inductive Literal : Type :=
| LString (s : string)
| LNumber (n : JsNumber)
| LBoolean (b : bool)
| LNull
| LBigInt (n : Z).

(** [Element], [Field] and [IndexSignature] hold ASTs and are held by ASTs:
    they are declared over the type of their children. *)
Record ElementOf (T : Type) : Type := mkElement {
  el_type : T;
  el_isOptional : bool;
  el_annotations : Annotations
}.
Arguments mkElement {T} _ _ _.
Arguments el_type {T} _.
Arguments el_isOptional {T} _.
Arguments el_annotations {T} _.

Record FieldOf (T : Type) : Type := mkField {
  fd_key : PropertyKey;
  fd_value : T;
  fd_isOptional : bool;
  fd_isReadonly : bool;
  fd_annotations : Annotations
}.
Arguments mkField {T} _ _ _ _ _.
Arguments fd_key {T} _.
Arguments fd_value {T} _.
Arguments fd_isOptional {T} _.
Arguments fd_isReadonly {T} _.
Arguments fd_annotations {T} _.

Record IndexSignatureOf (T : Type) : Type := mkIndexSignature {
  is_key : KeyType;
  is_value : T;
  is_isReadonly : bool;
  is_annotations : Annotations
}.
Arguments mkIndexSignature {T} _ _ _ _.
Arguments is_key {T} _.
Arguments is_value {T} _.
Arguments is_isReadonly {T} _.
Arguments is_annotations {T} _.

(** The [Tuple] interface: the constructors of tuples take and return it. *)
Record TupleOf (T : Type) : Type := mkTuple {
  elements : list (ElementOf T);
  rest : option (NonEmptyReadonlyArray T);
  isReadonly : bool;
  annotations : Annotations;
  allowUnexpected : bool
}.
Arguments mkTuple {T} _ _ _ _ _.
Arguments elements {T} _.
Arguments rest {T} _.
Arguments isReadonly {T} _.
Arguments annotations {T} _.
Arguments allowUnexpected {T} _.

Inductive AST : Type :=
| TypeAlias (typeParameters : list AST) (type : AST) (annotations : Annotations)
| LiteralType (literal : Literal) (annotations : Annotations)
| UniqueSymbol (symbol : Sym) (annotations : Annotations)
| UndefinedKeyword (annotations : Annotations)
| VoidKeyword (annotations : Annotations)
| NeverKeyword (annotations : Annotations)
| UnknownKeyword (annotations : Annotations)
| AnyKeyword (annotations : Annotations)
| StringKeyword (annotations : Annotations)
| NumberKeyword (annotations : Annotations)
| BooleanKeyword (annotations : Annotations)
| BigIntKeyword (annotations : Annotations)
| SymbolKeyword (annotations : Annotations)
| ObjectKeyword (annotations : Annotations)
| Tuple (node : TupleOf AST)
| Struct (fields : list (FieldOf AST))
         (indexSignatures : list (IndexSignatureOf AST))
         (annotations : Annotations) (allowUnexpected : bool)
| Union (members : list AST) (annotations : Annotations)
| Lazy (f : unit -> AST) (annotations : Annotations)
| Enums (enums : list (string * (string + JsNumber))) (annotations : Annotations)
| Refinement (from : AST) (refinement : Value -> bool) (meta : Value)
             (annotations : Annotations).

Abbreviation Element := (ElementOf AST).
Abbreviation Field := (FieldOf AST).
Abbreviation IndexSignature := (IndexSignatureOf AST).
Abbreviation TupleNode := (TupleOf AST).

(** The [_tag] of a node. *)
Definition tagOf (ast : AST) : string :=
  match ast with
  | TypeAlias _ _ _ => "TypeAlias"
  | LiteralType _ _ => "LiteralType"
  | UniqueSymbol _ _ => "UniqueSymbol"
  | UndefinedKeyword _ => "UndefinedKeyword"
  | VoidKeyword _ => "VoidKeyword"
  | NeverKeyword _ => "NeverKeyword"
  | UnknownKeyword _ => "UnknownKeyword"
  | AnyKeyword _ => "AnyKeyword"
  | StringKeyword _ => "StringKeyword"
  | NumberKeyword _ => "NumberKeyword"
  | BooleanKeyword _ => "BooleanKeyword"
  | BigIntKeyword _ => "BigIntKeyword"
  | SymbolKeyword _ => "SymbolKeyword"
  | ObjectKeyword _ => "ObjectKeyword"
  | Tuple _ => "Tuple"
  | Struct _ _ _ _ => "Struct"
  | Union _ _ => "Union"
  | Lazy _ _ => "Lazy"
  | Enums _ _ => "Enums"
  | Refinement _ _ _ _ => "Refinement"
  end.

(** *** Constructors

    A parameter with a default value ([annotations = {}],
    [allowUnexpected = false]) is an [option]: [None] is the omitted
    argument. *)

Definition typeAlias (typeParameters : list AST) (type : AST)
    (annotations : option Annotations) : AST :=
  TypeAlias typeParameters type (default ∅ annotations).

Definition isTypeAlias (ast : AST) : bool :=
  match ast with TypeAlias _ _ _ => true | _ => false end.

Definition literalType (literal : Literal) (annotations : option Annotations) : AST :=
  LiteralType literal (default ∅ annotations).

Definition isLiteralType (ast : AST) : bool :=
  match ast with LiteralType _ _ => true | _ => false end.

Definition uniqueSymbol (symbol : Sym) (annotations : option Annotations) : AST :=
  UniqueSymbol symbol (default ∅ annotations).

Definition undefinedKeyword (annotations : option Annotations) : AST :=
  UndefinedKeyword (default ∅ annotations).

Definition voidKeyword (annotations : option Annotations) : AST :=
  VoidKeyword (default ∅ annotations).

Definition neverKeyword (annotations : option Annotations) : AST :=
  NeverKeyword (default ∅ annotations).

Definition unknownKeyword (annotations : option Annotations) : AST :=
  UnknownKeyword (default ∅ annotations).

Definition anyKeyword (annotations : option Annotations) : AST :=
  AnyKeyword (default ∅ annotations).

Definition stringKeyword (annotations : option Annotations) : AST :=
  StringKeyword (default ∅ annotations).

Definition numberKeyword (annotations : option Annotations) : AST :=
  NumberKeyword (default ∅ annotations).

Definition booleanKeyword (annotations : option Annotations) : AST :=
  BooleanKeyword (default ∅ annotations).

Definition bigIntKeyword (annotations : option Annotations) : AST :=
  BigIntKeyword (default ∅ annotations).

Definition symbolKeyword (annotations : option Annotations) : AST :=
  SymbolKeyword (default ∅ annotations).

Definition objectKeyword (annotations : option Annotations) : AST :=
  ObjectKeyword (default ∅ annotations).

Definition element (type : AST) (isOptional : bool)
    (annotations : option Annotations) : Element :=
  mkElement type isOptional (default ∅ annotations).

Definition tuple (elements : list Element)
    (rest : option (NonEmptyReadonlyArray AST)) (isReadonly : bool)
    (annotations : option Annotations) (allowUnexpected : option bool)
  : TupleNode :=
  mkTuple elements rest isReadonly (default ∅ annotations)
          (default false allowUnexpected).

Definition isTuple (ast : AST) : bool :=
  match ast with Tuple _ => true | _ => false end.

Definition field (key : PropertyKey) (value : AST) (isOptional isReadonly : bool)
    (annotations : option Annotations) : Field :=
  mkField key value isOptional isReadonly (default ∅ annotations).

Definition indexSignature (key : KeyType) (value : AST) (isReadonly : bool)
    (annotations : option Annotations) : IndexSignature :=
  mkIndexSignature key value isReadonly (default ∅ annotations).

(** ** Orders and array functions of the fp-ts libraries *)

Module Order.
(** [Order<A>]: a comparison returning [-1 | 0 | 1]. *)
Definition Order (A : Type) : Type := A -> A -> comparison.

Definition contramap {A B : Type} (f : B -> A) (O : Order A) : Order B :=
  fun x y => O (f x) (f y).

Definition reverse {A : Type} (O : Order A) : Order A :=
  fun x y => O y x.
End Order.

Module Number.
(** Lengths, cardinalities and weights are natural numbers. *)
Definition Order : Order.Order nat := Nat.compare.
End Number.

Module RA.
Section Sort.
Context {A : Type} (O : Order.Order A).

(** Insertion in front of the first element that is not smaller. *)
Fixpoint insert (x : A) (l : list A) : list A :=
  match l with
  | [] => [x]
  | y :: l' =>
      match O x y with
      | Gt => y :: insert x l'
      | _ => x :: l
      end
  end.

(** [RA.sort(O)]: [Array.prototype.sort] on a copy, with [O.compare] as the
    comparator. The sort of the language is stable; so is this one. *)
Definition sort (self : list A) : list A := foldr insert [] self.
End Sort.

Section Equal.
Context {A : Type} (equals : A -> A -> bool).

(** [RA.uniq]: keeps the first occurrence of each element: an element is
    pushed when it equals nothing pushed so far. *)
Definition uniq (self : list A) : list A :=
  fold_left
    (fun out a =>
       if forallb (fun o => negb (equals a o)) out then out ++ [a] else out)
    self [].

(** [RA.intersection(that)(self)]: the elements of [self] that have an
    equal in [that], in the order of [self]. *)
Definition intersection (that self : list A) : list A :=
  List.filter (fun a => existsb (fun b => equals a b) that) self.
End Equal.

Definition flatMap {A B : Type} (f : A -> list B) (self : list A) : list B :=
  List.flat_map f self.
End RA.

(** ** Cardinality and [struct] *)

Fixpoint getCardinality (ast : AST) : nat :=
  match ast with
  | TypeAlias _ type _ => getCardinality type
  | NeverKeyword _ => 0
  | LiteralType _ _ | UndefinedKeyword _ | UniqueSymbol _ _ => 1
  | BooleanKeyword _ => 2
  | StringKeyword _ | NumberKeyword _ | BigIntKeyword _ | SymbolKeyword _ => 3
  | UnknownKeyword _ | AnyKeyword _ => 4
  | _ => 5
  end.

(** The objects [sortByCardinalityAsc] accepts: [{ readonly value: AST }]. *)
Class HasValue (T : Type) : Type := value : T -> AST.
#[export] Instance Field_HasValue : HasValue Field := fd_value.
#[export] Instance IndexSignature_HasValue : HasValue IndexSignature := is_value.

Definition sortByCardinalityAsc {T : Type} `{HasValue T} : list T -> list T :=
  RA.sort (Order.contramap (fun x : T => getCardinality (value x)) Number.Order).

Definition struct (fields : list Field) (indexSignatures : list IndexSignature)
    (annotations : option Annotations) (allowUnexpected : option bool) : AST :=
  Struct (sortByCardinalityAsc fields) (sortByCardinalityAsc indexSignatures)
         (default ∅ annotations) (default false allowUnexpected).

Definition isStruct (ast : AST) : bool :=
  match ast with Struct _ _ _ _ => true | _ => false end.

(** ** Weight and [union] *)

Fixpoint getWeight (ast : AST) : nat :=
  match ast with
  | TypeAlias _ type _ => getWeight type
  | Tuple node =>
      length (elements node) + (if rest node is Some _ then 1 else 0)
  | Struct fields indexSignatures _ _ => length fields + length indexSignatures
  | Union members _ => fold_left (fun n member => n + getWeight member) members 0
  | Lazy _ _ => 10
  | _ => 0
  end.

Definition sortByWeightDesc : list AST -> list AST :=
  RA.sort (Order.reverse (Order.contramap getWeight Number.Order)).

Definition isUnion (ast : AST) : bool :=
  match ast with Union _ _ => true | _ => false end.

(** The argument of [RA.flatMap] in [union]:
    [isUnion(ast) ? ast.members : [ast]]. *)
Definition membersOrSelf (ast : AST) : list AST :=
  match ast with
  | Union members _ => members
  | _ => [ast]
  end.

(** ** Lazy, Enums and Refinement *)

Definition lazy (f : unit -> AST) (annotations : option Annotations) : AST :=
  Lazy f (default ∅ annotations).

Definition isLazy (ast : AST) : bool :=
  match ast with Lazy _ _ => true | _ => false end.

Definition enums (enums : list (string * (string + JsNumber)))
    (annotations : option Annotations) : AST :=
  Enums enums (default ∅ annotations).

Definition refinement (from : AST) (refinement : Value -> bool) (meta : Value)
    (annotations : option Annotations) : AST :=
  Refinement from refinement meta (default ∅ annotations).

(** ** Appending to a tuple *)

Definition appendRestElement (ast : TupleNode) (restElement : AST)
    (annotations : option Annotations) : result TupleNode :=
  if rest ast is Some _ then
    Throw (Error "A rest element cannot follow another rest element. ts(1265)")
  else
    Ok (tuple (elements ast) (Some (NonEmpty restElement [])) (isReadonly ast)
              annotations None).

Definition appendElement (ast : TupleNode) (newElement : Element)
    (annotations : option Annotations) : result TupleNode :=
  if existsb el_isOptional (elements ast) && negb (el_isOptional newElement) then
    Throw (Error "A required element cannot follow an optional element. ts(1257)")
  else
    match rest ast with
    | None =>
        Ok (tuple (elements ast ++ [newElement]) None (isReadonly ast)
                  annotations None)
    | Some rest =>
        if el_isOptional newElement then
          Throw (Error "An optional element cannot follow a rest element. ts(1266)")
        else
          Ok (tuple (elements ast)
                    (Some (appendNonEmpty rest (el_type newElement)))
                    (isReadonly ast) annotations None)
    end.

(** ** Exported keyword nodes

    The source names the first one [string], which is the type of strings
    here. *)

Definition string_ : AST := stringKeyword None.
Definition number : AST := numberKeyword None.
Definition symbol : AST := symbolKeyword None.
Definition never : AST := neverKeyword None.

(** ** [record] *)

Definition getPropertyKeyAST (key : PropertyKey) : AST :=
  match key with
  | PKSymbol s => uniqueSymbol s None
  | PKString s => literalType (LString s) None
  | PKNumber n => literalType (LNumber n) None
  end.

(** The two arrays [record] pushes to. *)
Record RecordState : Type := mkRecordState {
  rs_fields : list Field;
  rs_indexSignatures : list IndexSignature
}.

Definition pushField (f : Field) (st : RecordState) : RecordState :=
  mkRecordState (rs_fields st ++ [f]) (rs_indexSignatures st).

Definition pushIndexSignature (i : IndexSignature) (st : RecordState)
  : RecordState :=
  mkRecordState (rs_fields st) (rs_indexSignatures st ++ [i]).

Section RecordGo.
Variables (value : AST) (isReadonly : bool).

(** The local function [go] of [record]: it returns nothing and pushes to the
    arrays of the enclosing call, which are threaded here. *)
Fixpoint go (key : AST) (st : RecordState) {struct key} : result RecordState :=
  match key with
  | NeverKeyword _ => Ok st
  | StringKeyword _ =>
      Ok (pushIndexSignature (indexSignature KString value isReadonly None) st)
  | NumberKeyword _ =>
      Ok (pushIndexSignature (indexSignature KNumber value isReadonly None) st)
  | SymbolKeyword _ =>
      Ok (pushIndexSignature (indexSignature KSymbol value isReadonly None) st)
  | LiteralType literal _ =>
      match literal with
      | LString s => Ok (pushField (field (PKString s) value false isReadonly None) st)
      | LNumber n => Ok (pushField (field (PKNumber n) value false isReadonly None) st)
      | _ => Ok st
      end
  | UniqueSymbol symbol _ =>
      Ok (pushField (field (PKSymbol symbol) value false isReadonly None) st)
  | Union members _ =>
      fold_left (fun acc member => st' ← acc; go member st') members (Ok st)
  | Refinement _ _ _ _ =>
      Throw (Error "cannot handle refinements in `record`")
  | _ =>
      Throw (Error ("Type '" +:+ tagOf key +:+
                    "' does not satisfy the constraint 'string | number | symbol'. ts(2344)"))
  end.
End RecordGo.

Definition record (key value : AST) (isReadonly : bool) : result AST :=
  st ← go value isReadonly key (mkRecordState [] []);
  Ok (struct (rs_fields st) (rs_indexSignatures st) None None).

(** ** Key domains of index signatures *)

(** [Record<IndexSignature["key"], boolean>]. *)
Record IndexSignaturesKeys : Type := mkKeys {
  ks_string : bool;
  ks_number : bool;
  ks_symbol : bool
}.

(** [keys[k]]. *)
Definition keysAt (keys : IndexSignaturesKeys) (k : KeyType) : bool :=
  match k with
  | KString => ks_string keys
  | KNumber => ks_number keys
  | KSymbol => ks_symbol keys
  end.

Definition getIndexSignaturesKeys (indexSignatures : list IndexSignature)
  : IndexSignaturesKeys :=
  fold_left
    (fun out sig =>
       match is_key sig with
       | KSymbol => mkKeys (ks_string out) (ks_number out) true
       | KNumber => mkKeys (ks_string out) true (ks_symbol out)
       | KString => mkKeys true true (ks_symbol out)
       end)
    indexSignatures (mkKeys false false false).

(** ** Operations that compare ASTs *)

Section Equal.
(** [Equal.equals] of the data library, on ASTs. *)
Variable equals : AST -> AST -> bool.

Definition union (candidates : list AST) (annotations : option Annotations)
  : AST :=
  let uniq := RA.uniq equals (RA.flatMap membersOrSelf candidates) in
  match uniq with
  | [] => neverKeyword annotations
  | [member] => member
  | _ => Union (sortByWeightDesc uniq) (default ∅ annotations)
  end.

Definition getIndexSignatureAST (sig : IndexSignature) : AST :=
  match is_key sig with
  | KSymbol => symbol
  | KNumber => number
  | KString => union [string_; number] None
  end.

Fixpoint keyof (ast : AST) : result (list AST) :=
  match ast with
  | TypeAlias _ type _ => keyof type
  | NeverKeyword _ | AnyKeyword _ => Ok [string_; number; symbol]
  | UnknownKeyword _ | NumberKeyword _ | BooleanKeyword _ | BigIntKeyword _
  | SymbolKeyword _ | UndefinedKeyword _ | UniqueSymbol _ _ | VoidKeyword _
  | ObjectKeyword _ | Enums _ _ => Ok [never]
  | Struct fields indexSignatures _ _ =>
      let keys := getIndexSignaturesKeys indexSignatures in
      let fields :=
        List.map (fun f => getPropertyKeyAST (fd_key f))
          (List.filter (fun f => negb (keysAt keys (typeofKey (fd_key f)))) fields) in
      Ok (fields ++ List.map getIndexSignatureAST indexSignatures)
  | Union members _ =>
      match members with
      | [] => Throw (TypeError "Cannot read properties of undefined (reading '_tag')")
      | member0 :: others =>
          fold_left
            (fun acc member =>
               out ← acc; ks ← keyof member; Ok (RA.intersection equals ks out))
            others (keyof member0)
      end
  | Lazy f _ => keyof (f tt)
  | Refinement from _ _ _ => keyof from
  | _ => Throw (Error "cannot `keyof` on this AST")
  end.

Fixpoint partial (ast : AST) : AST :=
  match ast with
  | TypeAlias _ type _ => partial type
  | Tuple node =>
      Tuple
        (tuple
           (List.map (fun e => element (el_type e) true None) (elements node))
           (option_map
              (fun rest => NonEmpty (union (toList rest ++ [undefinedKeyword None]) None) [])
              (rest node))
           (isReadonly node) None None)
  | Struct fields indexSignatures _ _ =>
      struct
        (List.map
           (fun f => field (fd_key f) (fd_value f) true (fd_isReadonly f)
                           (Some (fd_annotations f)))
           fields)
        indexSignatures None None
  | Union members _ => union (List.map partial members) None
  | Lazy f _ => lazy (fun _ => partial (f tt)) None
  | Refinement from _ _ _ => partial from
  | _ => ast
  end.
End Equal.

(** ** The error model *)

Module ParseResult.

(** The variants of [ParseErrors]. Every sequence of errors has the type
    [NonEmptyReadonlyArray<ParseErrors>]. *)
Inductive ParseErrors : Type :=
| Type_ (expected : AST) (actual : Value) (message : option string)
| Index (index : nat) (errors : NonEmptyReadonlyArray ParseErrors)
| Key (key : PropertyKey) (errors : NonEmptyReadonlyArray ParseErrors)
| Missing
| Unexpected (actual : Value)
| UnionMember (errors : NonEmptyReadonlyArray ParseErrors)
| Forbidden.

Record ParseError : Type := mkParseError {
  errors : NonEmptyReadonlyArray ParseErrors
}.

Definition parseError (errors : NonEmptyReadonlyArray ParseErrors) : ParseError :=
  mkParseError errors.

(** [Option.fromNullable(message)]: an omitted message is [None]. *)
Definition type (expected : AST) (actual : Value) (message : option string)
  : ParseErrors :=
  Type_ expected actual message.

Definition forbidden : ParseErrors := Forbidden.

Definition index (index : nat) (errors : NonEmptyReadonlyArray ParseErrors)
  : ParseErrors :=
  Index index errors.

Definition key (key : PropertyKey) (errors : NonEmptyReadonlyArray ParseErrors)
  : ParseErrors :=
  Key key errors.

Definition missing : ParseErrors := Missing.

Definition unexpected (actual : Value) : ParseErrors := Unexpected actual.

Definition unionMember (errors : NonEmptyReadonlyArray ParseErrors)
  : ParseErrors :=
  UnionMember errors.

Inductive Either (E A : Type) : Type :=
| Left (left : E)
| Right (right : A).
Arguments Left {E A} left.
Arguments Right {E A} right.

(** [ParseResult<A>] is an [Effect<never, ParseError, A>]: an [Either], which
    the functions below recognise by its tag, or any other effect, which
    yields an [Either] once it is run. *)
Inductive ParseResult (A : Type) : Type :=
| Now (either : Either ParseError A)
| Suspended (effect : unit -> Either ParseError A).
Arguments Now {A} either.
Arguments Suspended {A} effect.

(** The outcome of a result: the [Either] it is, or the one it yields. *)
Definition outcome {A} (self : ParseResult A) : Either ParseError A :=
  match self with
  | Now either => either
  | Suspended effect => effect tt
  end.

Definition success {A} (a : A) : ParseResult A := Now (Right a).

Definition fail {A} (error : ParseError) : ParseResult A := Now (Left error).

Definition failure {A} (e : ParseErrors) : ParseResult A :=
  fail (parseError (NonEmpty e [])).

Definition failures {A} (es : NonEmptyReadonlyArray ParseErrors) : ParseResult A :=
  Now (Left (parseError es)).

Definition eitherOrUndefined {A} (self : ParseResult A)
  : option (Either ParseError A) :=
  match self with
  | Now either => Some either
  | Suspended _ => None
  end.

Definition flatMap {A B} (self : ParseResult A) (f : A -> ParseResult B)
  : ParseResult B :=
  match self with
  | Now (Left e) => Now (Left e)
  | Now (Right a) => f a
  | Suspended effect =>
      Suspended (fun _ =>
        match effect tt with
        | Left e => Left e
        | Right a => outcome (f a)
        end)
  end.

Definition map {A B} (self : ParseResult A) (f : A -> B) : ParseResult B :=
  match self with
  | Now (Left e) => Now (Left e)
  | Now (Right a) => Now (Right (f a))
  | Suspended effect =>
      Suspended (fun _ =>
        match effect tt with
        | Left e => Left e
        | Right a => Right (f a)
        end)
  end.

Definition mapLeft {A} (self : ParseResult A) (f : ParseError -> ParseError)
  : ParseResult A :=
  match self with
  | Now (Left e) => Now (Left (f e))
  | Now (Right a) => Now (Right a)
  | Suspended effect =>
      Suspended (fun _ =>
        match effect tt with
        | Left e => Left (f e)
        | Right a => Right a
        end)
  end.

Definition bimap {A B} (self : ParseResult A) (f : ParseError -> ParseError)
    (g : A -> B) : ParseResult B :=
  match self with
  | Now (Left e) => Now (Left (f e))
  | Now (Right a) => Now (Right (g a))
  | Suspended effect =>
      Suspended (fun _ =>
        match effect tt with
        | Left e => Left (f e)
        | Right a => Right (g a)
        end)
  end.

Definition orElse {A} (self : ParseResult A) (f : ParseError -> ParseResult A)
  : ParseResult A :=
  match self with
  | Now (Left e) => f e
  | Now (Right a) => Now (Right a)
  | Suspended effect =>
      Suspended (fun _ =>
        match effect tt with
        | Left e => outcome (f e)
        | Right a => Right a
        end)
  end.

(** The number of entries of an error. *)
Definition entries (error : ParseError) : list ParseErrors :=
  toList (errors error).

(** Every composite variant inside an error wraps at least one entry. *)
Fixpoint compositesNonEmpty (e : ParseErrors) : bool :=
  match e with
  | Index _ inner | Key _ inner | UnionMember inner =>
      (1 <=? length (toList inner)) &&
      compositesNonEmpty (headNonEmpty inner) &&
      forallb compositesNonEmpty (tailNonEmpty inner)
  | _ => true
  end.

End ParseResult.

(** ** Equality of keys *)

#[export] Instance PropertyKey_eq_dec : EqDecision PropertyKey.
Proof. solve_decision. Defined.

#[export] Instance KeyType_eq_dec : EqDecision KeyType.
Proof. solve_decision. Defined.

(** ** [annotations]

    The source names the function [annotations], which is the field of a
    tuple here. *)

Definition annotationsOf (ast : AST) : Annotations :=
  match ast with
  | TypeAlias _ _ a | LiteralType _ a | UniqueSymbol _ a | UndefinedKeyword a
  | VoidKeyword a | NeverKeyword a | UnknownKeyword a | AnyKeyword a
  | StringKeyword a | NumberKeyword a | BooleanKeyword a | BigIntKeyword a
  | SymbolKeyword a | ObjectKeyword a | Struct _ _ a _ | Union _ a | Lazy _ a
  | Enums _ a | Refinement _ _ _ a => a
  | Tuple node => annotations node
  end.

(** [{ ...ast, annotations: { ...ast.annotations, ...annotations } }]: the
    entries of the argument win over those of the node. *)
Definition annotations_ (ast : AST) (newAnnotations : option Annotations) : AST :=
  let merged : Annotations := default ∅ newAnnotations ∪ annotationsOf ast in
  match ast with
  | TypeAlias typeParameters type _ => TypeAlias typeParameters type merged
  | LiteralType literal _ => LiteralType literal merged
  | UniqueSymbol symbol _ => UniqueSymbol symbol merged
  | UndefinedKeyword _ => UndefinedKeyword merged
  | VoidKeyword _ => VoidKeyword merged
  | NeverKeyword _ => NeverKeyword merged
  | UnknownKeyword _ => UnknownKeyword merged
  | AnyKeyword _ => AnyKeyword merged
  | StringKeyword _ => StringKeyword merged
  | NumberKeyword _ => NumberKeyword merged
  | BooleanKeyword _ => BooleanKeyword merged
  | BigIntKeyword _ => BigIntKeyword merged
  | SymbolKeyword _ => SymbolKeyword merged
  | ObjectKeyword _ => ObjectKeyword merged
  | Tuple node =>
      Tuple (mkTuple (elements node) (rest node) (isReadonly node) merged
                     (allowUnexpected node))
  | Struct fields indexSignatures _ allowUnexpected =>
      Struct fields indexSignatures merged allowUnexpected
  | Union members _ => Union members merged
  | Lazy f _ => Lazy f merged
  | Enums enums _ => Enums enums merged
  | Refinement from refinement meta _ => Refinement from refinement meta merged
  end.

(** ** [propertyKeys], [getFields], [pick] and [omit] *)

(** [Equal.equals] on property keys, which are primitive values. *)
Definition keyEquals (a b : PropertyKey) : bool := bool_decide (a = b).

(** [keys.includes(key)]. *)
Definition includes (keys : list PropertyKey) (key : PropertyKey) : bool :=
  existsb (fun k => bool_decide (k = key)) keys.

(** Reading [members[0]._tag] of a Union without members throws. *)
Fixpoint propertyKeys (ast : AST) : result (list PropertyKey) :=
  match ast with
  | TypeAlias _ type _ => propertyKeys type
  | Tuple node => Ok (imap (fun i _ => PKString (pretty i)) (elements node))
  | Struct fields _ _ _ => Ok (List.map fd_key fields)
  | Union members _ =>
      match members with
      | [] => Throw (TypeError "Cannot read properties of undefined (reading '_tag')")
      | member0 :: others =>
          fold_left
            (fun acc member =>
               out ← acc; ks ← propertyKeys member;
               Ok (RA.intersection keyEquals ks out))
            others (propertyKeys member0)
      end
  | Lazy f _ => propertyKeys (f tt)
  | _ => Ok []
  end.

Section Fields.
Variable equals : AST -> AST -> bool.

(** The field that [getFields] builds for a key of a Union, from the fields
    of all the members: the two flags are raised while the values are
    collected. *)
Definition fieldOfUnion (fields : list Field) (key : PropertyKey) : Field :=
  let matching := List.filter (fun f => bool_decide (fd_key f = key)) fields in
  field key (union equals (List.map fd_value matching) None)
        (existsb fd_isOptional matching) (existsb fd_isReadonly matching) None.

Fixpoint getFields (ast : AST) : result (list Field) :=
  match ast with
  | TypeAlias _ type _ => getFields type
  | Tuple node =>
      Ok (imap
            (fun i e =>
               field (PKNumber (Z.of_nat i)) (el_type e) (el_isOptional e)
                     (isReadonly node) None)
            (elements node))
  | Struct fields _ _ _ => Ok fields
  | Union members _ =>
      fields ← foldr (fun member more =>
                        fs ← getFields member; others ← more; Ok (fs ++ others))
                     (Ok []) members;
      keys ← propertyKeys ast;
      Ok (List.map (fieldOfUnion fields) keys)
  | Lazy f _ => getFields (f tt)
  | Refinement from _ _ _ => getFields from
  | _ => Ok []
  end.

Definition pick (ast : AST) (keys : list PropertyKey) : result AST :=
  fields ← getFields ast;
  Ok (struct (List.filter (fun f => includes keys (fd_key f)) fields) [] None None).

Definition omit (ast : AST) (keys : list PropertyKey) : result AST :=
  fields ← getFields ast;
  Ok (struct (List.filter (fun f => negb (includes keys (fd_key f))) fields) []
             None None).
End Fields.

(** ** A structural equality

    [Equal.equals] of the data library compares arrays and plain objects by
    their contents and functions by identity. The operations above take it as
    a parameter; [structuralEquals] is the instance that compares by contents
    and finds two nodes that hold functions (Lazy, Refinement) distinct. *)

Section ListEqb.
Context {A : Type} (eqb : A -> A -> bool).

Fixpoint list_eqb (xs ys : list A) : bool :=
  match xs, ys with
  | [], [] => true
  | x :: xs', y :: ys' => eqb x y && list_eqb xs' ys'
  | _, _ => false
  end.
End ListEqb.

Fixpoint Value_eqb (x y : Value) : bool :=
  match x, y with
  | VUndefined, VUndefined | VNull, VNull => true
  | VBoolean a, VBoolean b => bool_decide (a = b)
  | VNumber a, VNumber b => bool_decide (a = b)
  | VString a, VString b => bool_decide (a = b)
  | VBigInt a, VBigInt b => bool_decide (a = b)
  | VSymbol a, VSymbol b => bool_decide (a = b)
  | VArray xs, VArray ys => list_eqb Value_eqb xs ys
  | VObject xs, VObject ys =>
      list_eqb (fun kx ky => bool_decide (kx.1 = ky.1) && Value_eqb kx.2 ky.2)
               xs ys
  | _, _ => false
  end.

Definition Annotations_eqb (a b : Annotations) : bool :=
  list_eqb (fun kx ky => bool_decide (kx.1 = ky.1) && Value_eqb kx.2 ky.2)
           (map_to_list a) (map_to_list b).

Definition Literal_eqb (a b : Literal) : bool :=
  match a, b with
  | LString x, LString y => bool_decide (x = y)
  | LNumber x, LNumber y => bool_decide (x = y)
  | LBoolean x, LBoolean y => bool_decide (x = y)
  | LNull, LNull => true
  | LBigInt x, LBigInt y => bool_decide (x = y)
  | _, _ => false
  end.

Fixpoint structuralEquals (a b : AST) {struct a} : bool :=
  match a, b with
  | TypeAlias ps t ann, TypeAlias ps' t' ann' =>
      list_eqb structuralEquals ps ps' && structuralEquals t t' &&
      Annotations_eqb ann ann'
  | LiteralType l ann, LiteralType l' ann' =>
      Literal_eqb l l' && Annotations_eqb ann ann'
  | UniqueSymbol s ann, UniqueSymbol s' ann' =>
      bool_decide (s = s') && Annotations_eqb ann ann'
  | UndefinedKeyword ann, UndefinedKeyword ann'
  | VoidKeyword ann, VoidKeyword ann'
  | NeverKeyword ann, NeverKeyword ann'
  | UnknownKeyword ann, UnknownKeyword ann'
  | AnyKeyword ann, AnyKeyword ann'
  | StringKeyword ann, StringKeyword ann'
  | NumberKeyword ann, NumberKeyword ann'
  | BooleanKeyword ann, BooleanKeyword ann'
  | BigIntKeyword ann, BigIntKeyword ann'
  | SymbolKeyword ann, SymbolKeyword ann'
  | ObjectKeyword ann, ObjectKeyword ann' => Annotations_eqb ann ann'
  | Tuple node, Tuple node' =>
      list_eqb
        (fun e e' =>
           structuralEquals (el_type e) (el_type e') &&
           bool_decide (el_isOptional e = el_isOptional e') &&
           Annotations_eqb (el_annotations e) (el_annotations e'))
        (elements node) (elements node') &&
      match rest node, rest node' with
      | Some r, Some r' =>
          structuralEquals (headNonEmpty r) (headNonEmpty r') &&
          list_eqb structuralEquals (tailNonEmpty r) (tailNonEmpty r')
      | None, None => true
      | _, _ => false
      end &&
      bool_decide (isReadonly node = isReadonly node') &&
      Annotations_eqb (annotations node) (annotations node') &&
      bool_decide (allowUnexpected node = allowUnexpected node')
  | Struct fs sigs ann au, Struct fs' sigs' ann' au' =>
      list_eqb
        (fun f f' =>
           bool_decide (fd_key f = fd_key f') &&
           structuralEquals (fd_value f) (fd_value f') &&
           bool_decide (fd_isOptional f = fd_isOptional f') &&
           bool_decide (fd_isReadonly f = fd_isReadonly f') &&
           Annotations_eqb (fd_annotations f) (fd_annotations f'))
        fs fs' &&
      list_eqb
        (fun s s' =>
           bool_decide (is_key s = is_key s') &&
           structuralEquals (is_value s) (is_value s') &&
           bool_decide (is_isReadonly s = is_isReadonly s') &&
           Annotations_eqb (is_annotations s) (is_annotations s'))
        sigs sigs' &&
      Annotations_eqb ann ann' && bool_decide (au = au')
  | Union ms ann, Union ms' ann' =>
      list_eqb structuralEquals ms ms' && Annotations_eqb ann ann'
  | Enums es ann, Enums es' ann' =>
      bool_decide (es = es') && Annotations_eqb ann ann'
  | _, _ => false
  end.

(** ** Vocabulary of the specification *)

(** The stored fields and index signatures of a node ([[]] when the node is
    not a Struct), and the stored members of a Union. *)
Definition fieldsOf (ast : AST) : list Field :=
  match ast with Struct fields _ _ _ => fields | _ => [] end.

Definition indexSignaturesOf (ast : AST) : list IndexSignature :=
  match ast with Struct _ indexSignatures _ _ => indexSignatures | _ => [] end.

(** Ascending cardinality of the value types. *)
Definition byCardinality {T : Type} `{HasValue T} : relation T :=
  fun a b => getCardinality (value a) <= getCardinality (value b).

(** Descending weight. *)
Definition byWeightDesc : relation AST :=
  fun a b => getWeight b <= getWeight a.

(** The cardinality table of the specification, by node kind; a TypeAlias
    takes the cardinality of its wrapped type. *)
Definition cardinalityOfKind (tag : string) : nat :=
  if bool_decide (tag = "NeverKeyword") then 0
  else if bool_decide (tag ∈ ["LiteralType"; "UndefinedKeyword"; "UniqueSymbol"]) then 1
  else if bool_decide (tag = "BooleanKeyword") then 2
  else if bool_decide (tag ∈ ["StringKeyword"; "NumberKeyword"; "BigIntKeyword";
                              "SymbolKeyword"]) then 3
  else if bool_decide (tag ∈ ["UnknownKeyword"; "AnyKeyword"]) then 4
  else 5.

(** The weight table of the specification, over the weights [w] of the
    children. *)
Definition weightOfKind (w : AST -> nat) (ast : AST) : nat :=
  match ast with
  | TypeAlias _ type _ => w type
  | Tuple node => length (elements node) + (if rest node is Some _ then 1 else 0)
  | Struct fields indexSignatures _ _ => length fields + length indexSignatures
  | Union members _ => list_sum (List.map w members)
  | Lazy _ _ => 10
  | _ => 0
  end.

(** The schemas of the union test: [struct({ a: literal(1), c: string })] and
    [struct({ b: literal(2), d: number })]. *)
Definition exampleFieldA : Field :=
  field (PKString "a") (literalType (LNumber 1%Z) None) false true None.
Definition exampleFieldC : Field :=
  field (PKString "c") string_ false true None.
Definition exampleFieldB : Field :=
  field (PKString "b") (literalType (LNumber 2%Z) None) false true None.
Definition exampleFieldD : Field :=
  field (PKString "d") number false true None.
Definition exampleStructAC : AST :=
  struct [exampleFieldA; exampleFieldC] [] None None.
Definition exampleStructBD : AST :=
  struct [exampleFieldB; exampleFieldD] [] None None.

(** [u] keeps the first occurrence of each element of [l] and drops the later
    elements that equal a kept one: [u] is a subsequence of [l], no element of
    [u] equals an earlier element of [u], and every element of [l] is kept or
    equals a kept element. *)
Definition FirstOccurrences {A : Type} (equals : A -> A -> bool)
    (l u : list A) : Prop :=
  sublist u l /\
  StronglySorted (fun earlier later => equals later earlier = false) u /\
  Forall (fun a => a ∈ u \/ Exists (fun o => equals a o = true) u) l.

(** [flat] holds the candidates with every Union replaced by its members. *)
Definition Flattened (candidates flat : list AST) : Prop :=
  forall x,
    x ∈ flat <->
    exists c, c ∈ candidates /\
              match c with
              | Union members _ => x ∈ members
              | _ => x = c
              end.

(** A field made optional, as [partial] rebuilds it. *)
Definition makeOptional (f : Field) : Field :=
  mkField (fd_key f) (fd_value f) true (fd_isReadonly f) (fd_annotations f).

(** The key domain of an index signature covers a type of keys: [string]
    covers the string and the number keys. *)
Definition covers (domain keyType : KeyType) : bool :=
  match domain, keyType with
  | KString, KString | KString, KNumber | KNumber, KNumber
  | KSymbol, KSymbol => true
  | _, _ => false
  end.

(** The type of a key is covered by the domain of an index signature. *)
Definition coveredBy (indexSignatures : list IndexSignature) (key : PropertyKey)
  : bool :=
  existsb (fun sig => covers (is_key sig) (typeofKey key)) indexSignatures.

(** The nodes of a key that [record] reads: the key itself, or the leaves of
    the Unions it is made of, from left to right. *)
Fixpoint keyLeaves (key : AST) : list AST :=
  match key with
  | Union members _ => List.flat_map keyLeaves members
  | _ => [key]
  end.

(** The kinds of leaves that [record] reads without failing. *)
Definition isKeyKind (leaf : AST) : bool :=
  match leaf with
  | NeverKeyword _ | StringKeyword _ | NumberKeyword _ | SymbolKeyword _
  | LiteralType _ _ | UniqueSymbol _ _ => true
  | _ => false
  end.

(** The required field that a string literal, a number literal or a unique
    symbol becomes. *)
Definition fieldsOfLeaf (value : AST) (isReadonly : bool) (leaf : AST)
  : list Field :=
  match leaf with
  | LiteralType (LString s) _ => [mkField (PKString s) value false isReadonly ∅]
  | LiteralType (LNumber n) _ => [mkField (PKNumber n) value false isReadonly ∅]
  | UniqueSymbol s _ => [mkField (PKSymbol s) value false isReadonly ∅]
  | _ => []
  end.

(** The index signature that a string, number or symbol keyword becomes. *)
Definition indexSignaturesOfLeaf (value : AST) (isReadonly : bool) (leaf : AST)
  : list IndexSignature :=
  match leaf with
  | StringKeyword _ => [mkIndexSignature KString value isReadonly ∅]
  | NumberKeyword _ => [mkIndexSignature KNumber value isReadonly ∅]
  | SymbolKeyword _ => [mkIndexSignature KSymbol value isReadonly ∅]
  | _ => []
  end.

(** The error of [record] at a leaf that it does not read. *)
Definition recordError (leaf : AST) : Exn :=
  match leaf with
  | Refinement _ _ _ _ => Error "cannot handle refinements in `record`"
  | _ =>
      Error ("Type '" +:+ tagOf leaf +:+
             "' does not satisfy the constraint 'string | number | symbol'. ts(2344)")
  end.

(** The key-like nodes in the words of the specification: the string and
    number literals, the unique symbols, the string, number and symbol
    keywords, and the Unions of key-like nodes ([never], the empty Union,
    among them). *)
Fixpoint specKeyLike (key : AST) : bool :=
  match key with
  | LiteralType (LString _) _ | LiteralType (LNumber _) _ => true
  | UniqueSymbol _ _ => true
  | StringKeyword _ | NumberKeyword _ | SymbolKeyword _ => true
  | NeverKeyword _ => true
  | Union members _ => forallb specKeyLike members
  | _ => false
  end.

(** The result of appending the elements [es], one after the other, to a
    tuple, as a caller building a tuple does. *)
Definition appendElements (t : TupleNode) (es : list Element) : result TupleNode :=
  fold_left (fun acc e => t' ← acc; appendElement t' e None) es (Ok t).

(** No required element follows an optional element. *)
Definition requiredFirst (es : list Element) : Prop :=
  StronglySorted
    (fun e e' => el_isOptional e = true -> el_isOptional e' = true) es.

(** The key of the field that a leaf of a [record] key becomes. *)
Definition keysOfLeaf (leaf : AST) : list PropertyKey :=
  match leaf with
  | LiteralType (LString s) _ => [PKString s]
  | LiteralType (LNumber n) _ => [PKNumber n]
  | UniqueSymbol s _ => [PKSymbol s]
  | _ => []
  end.

(** [partial] in the words of the specification, read as a deep transform:
    every field of every Struct and every element of every Tuple inside the
    node is optional, through field values, index-signature values, element
    and rest types, Union members, and wrapped, produced and refined nodes. *)
Fixpoint specEveryFieldAndElementOptional (ast : AST) : bool :=
  match ast with
  | TypeAlias _ type _ => specEveryFieldAndElementOptional type
  | Tuple node =>
      forallb
        (fun e => el_isOptional e && specEveryFieldAndElementOptional (el_type e))
        (elements node) &&
      match rest node with
      | Some r =>
          specEveryFieldAndElementOptional (headNonEmpty r) &&
          forallb specEveryFieldAndElementOptional (tailNonEmpty r)
      | None => true
      end
  | Struct fields indexSignatures _ _ =>
      forallb
        (fun f => fd_isOptional f && specEveryFieldAndElementOptional (fd_value f))
        fields &&
      forallb (fun s => specEveryFieldAndElementOptional (is_value s))
              indexSignatures
  | Union members _ => forallb specEveryFieldAndElementOptional members
  | Lazy f _ => specEveryFieldAndElementOptional (f tt)
  | Refinement from _ _ _ => specEveryFieldAndElementOptional from
  | _ => true
  end.

(** The property keys of the first [n] positions of a tuple: ["0"], ["1"],
    ... *)
Definition positionKeys (n : nat) : list PropertyKey :=
  List.map (fun i => PKString (pretty i)) (seq 0 n).

(** * Properties *)

(** ** The stable sort *)

Section SortFacts.
Context {A : Type} (O : Order.Order A) (R : relation A).
Hypothesis R_le : forall x y, O x y <> Gt -> R x y.
Hypothesis R_gt : forall x y, O x y = Gt -> R y x.
Context `{!Transitive R}.

Lemma insert_Permutation x l : RA.insert O x l ≡ₚ x :: l.
Proof.
  induction l as [|y l IH]; simpl; [done|].
  destruct (O x y); try done.
  rewrite IH. apply perm_swap.
Qed.

Lemma sort_Permutation l : RA.sort O l ≡ₚ l.
Proof.
  induction l as [|x l IH]; simpl; [done|].
  by rewrite insert_Permutation, IH.
Qed.

Lemma insert_StronglySorted x l :
  StronglySorted R l -> StronglySorted R (RA.insert O x l).
Proof.
  induction 1 as [|y l Hl IH Hy]; simpl.
  { repeat constructor. }
  assert (Hfront : O x y <> Gt -> StronglySorted R (x :: y :: l)).
  { intros Hle. constructor; [by constructor|].
    constructor; [by apply R_le|].
    eapply Forall_impl; [exact Hy|]. intros z Hz. simpl.
    etrans; [by apply R_le|done]. }
  destruct (O x y) eqn:E; [by apply Hfront..|].
  constructor; [done|].
  eapply Permutation_Forall; [symmetry; apply insert_Permutation|].
  constructor; [by apply R_gt|done].
Qed.

Lemma sort_StronglySorted l : StronglySorted R (RA.sort O l).
Proof.
  induction l as [|x l IH]; simpl; [constructor|].
  by apply insert_StronglySorted.
Qed.
End SortFacts.

(** A list that the comparator already finds in order is left as it is. *)
Lemma sort_in_order {A : Type} (O : Order.Order A) (l : list A) :
  Sorted (fun x y => O x y <> Gt) l -> RA.sort O l = l.
Proof.
  induction 1 as [|x l Hl IH Hx]; simpl; [done|].
  rewrite IH. destruct Hx as [|y l Hxy]; simpl; [done|].
  by destruct (O x y).
Qed.

Lemma sortByCardinalityAsc_Permutation {T : Type} `{HasValue T} (l : list T) :
  sortByCardinalityAsc l ≡ₚ l.
Proof. apply sort_Permutation. Qed.

Lemma sortByCardinalityAsc_sorted {T : Type} `{HasValue T} (l : list T) :
  StronglySorted byCardinality (sortByCardinalityAsc l).
Proof.
  apply sort_StronglySorted.
  - intros x y. unfold Order.contramap, Number.Order, byCardinality.
    rewrite Nat.compare_gt_iff. lia.
  - intros x y. unfold Order.contramap, Number.Order, byCardinality.
    rewrite Nat.compare_gt_iff. lia.
  - intros x y z. unfold byCardinality. lia.
Qed.

(** The cardinalities of the stored sequence only depend on the entries, not on
    their order. *)
Lemma sortByCardinalityAsc_order_independent {T : Type} `{HasValue T}
    (l l' : list T) :
  l' ≡ₚ l ->
  List.map (fun x => getCardinality (value x)) (sortByCardinalityAsc l') =
  List.map (fun x => getCardinality (value x)) (sortByCardinalityAsc l).
Proof.
  intros Hperm.
  apply (StronglySorted_unique le).
  - apply (StronglySorted_fmap _ byCardinality); [done|].
    apply sortByCardinalityAsc_sorted.
  - apply (StronglySorted_fmap _ byCardinality); [done|].
    apply sortByCardinalityAsc_sorted.
  - apply Permutation_map.
    by rewrite !sortByCardinalityAsc_Permutation.
Qed.

Lemma getCardinality_table ast :
  getCardinality ast =
  match ast with
  | TypeAlias _ type _ => getCardinality type
  | _ => cardinalityOfKind (tagOf ast)
  end.
Proof. by destruct ast. Qed.

(** C2: whatever the order in which the caller supplies the fields and the
    index signatures, [struct] stores a permutation of each sequence that is
    sorted ascending by the cardinality of the value types, so that the
    cardinalities stored for two orderings of the same entries coincide;
    the cardinality of a node is that of the table of its kind (Never 0;
    Literal, Undefined, UniqueSymbol 1; Boolean 2; String, Number, BigInt,
    Symbol 3; Unknown, Any 4; every other kind 5), a TypeAlias taking the
    cardinality of its wrapped type. *)
Theorem struct_sorted_by_cardinality
    (fields fields' : list Field) (indexSignatures indexSignatures' : list IndexSignature)
    (annotations : option Annotations) (allowUnexpected : option bool) :
  fields' ≡ₚ fields ->
  indexSignatures' ≡ₚ indexSignatures ->
  let stored := struct fields indexSignatures annotations allowUnexpected in
  let stored' := struct fields' indexSignatures' annotations allowUnexpected in
  isStruct stored = true /\
  fieldsOf stored ≡ₚ fields /\
  indexSignaturesOf stored ≡ₚ indexSignatures /\
  StronglySorted byCardinality (fieldsOf stored) /\
  StronglySorted byCardinality (indexSignaturesOf stored) /\
  List.map (fun f => getCardinality (fd_value f)) (fieldsOf stored') =
    List.map (fun f => getCardinality (fd_value f)) (fieldsOf stored) /\
  List.map (fun s => getCardinality (is_value s)) (indexSignaturesOf stored') =
    List.map (fun s => getCardinality (is_value s)) (indexSignaturesOf stored) /\
  (forall ast,
     getCardinality ast =
     match ast with
     | TypeAlias _ type _ => getCardinality type
     | _ => cardinalityOfKind (tagOf ast)
     end).
Proof.
  intros Hf Hs. simpl.
  split_and!; try done.
  - apply sortByCardinalityAsc_Permutation.
  - apply sortByCardinalityAsc_Permutation.
  - apply sortByCardinalityAsc_sorted.
  - apply sortByCardinalityAsc_sorted.
  - by apply (sortByCardinalityAsc_order_independent fields fields').
  - by apply (sortByCardinalityAsc_order_independent indexSignatures indexSignatures').
  - apply getCardinality_table.
Qed.

Lemma struct_sorted_by_cardinality_witness :
  [exampleFieldC; exampleFieldA] ≡ₚ [exampleFieldA; exampleFieldC] /\
  [@mkIndexSignature AST KString number true ∅] ≡ₚ
    [@mkIndexSignature AST KString number true ∅] /\
  fieldsOf (struct [exampleFieldC; exampleFieldA] [] None None) =
    [exampleFieldA; exampleFieldC] /\
  StronglySorted byCardinality
    (fieldsOf (struct [exampleFieldA; exampleFieldC]
                      [mkIndexSignature KString number true ∅] None None)).
Proof.
  assert (H1 : [exampleFieldC; exampleFieldA] ≡ₚ [exampleFieldA; exampleFieldC])
    by apply perm_swap.
  assert (H2 : [@mkIndexSignature AST KString number true ∅] ≡ₚ
               [@mkIndexSignature AST KString number true ∅])
    by reflexivity.
  split; [exact H1|]. split; [exact H2|]. split; [reflexivity|].
  exact (proj1 (proj2 (proj2 (proj2
    (struct_sorted_by_cardinality _ _ _ _ None None H1 H2))))).
Defined.

(** ** Deduplication *)

Lemma forallb_false_Exists {A : Type} (f : A -> bool) (l : list A) :
  forallb f l = false -> Exists (fun x => f x = false) l.
Proof.
  induction l as [|a l IH]; simpl; [done|].
  destruct (f a) eqn:E; simpl; intros H; [right; auto|by left].
Qed.

Section UniqFacts.
Context {A : Type} (equals : A -> A -> bool).

Let distinct : relation A := fun earlier later => equals later earlier = false.
Let step (out : list A) (a : A) : list A :=
  if forallb (fun o => negb (equals a o)) out then out ++ [a] else out.

Lemma uniq_loop l acc :
  StronglySorted distinct acc ->
  exists pushed,
    fold_left step l acc = acc ++ pushed /\
    sublist pushed l /\
    StronglySorted distinct (acc ++ pushed) /\
    Forall (fun a => a ∈ acc ++ pushed \/
                     Exists (fun o => equals a o = true) (acc ++ pushed)) l.
Proof.
  revert acc. induction l as [|a l IH]; intros acc Hacc; simpl.
  { exists []. rewrite app_nil_r. by repeat split. }
  unfold step at 2.
  destruct (forallb (fun o => negb (equals a o)) acc) eqn:Hfresh.
  - destruct (IH (acc ++ [a])) as (pushed & Heq & Hsub & Hsorted & Hcov).
    { apply StronglySorted_app_2; [|done|repeat constructor].
      intros o a' Ho Ha'. apply list_elem_of_singleton in Ha' as ->.
      rewrite forallb_forall in Hfresh.
      apply list_elem_of_In, Hfresh in Ho. unfold distinct.
      by destruct (equals a o). }
    exists (a :: pushed). rewrite <- app_assoc in Heq, Hsorted, Hcov.
    split_and!; [done|by apply sublist_skip|done|].
    constructor; [|done]. left. set_solver.
  - destruct (IH acc Hacc) as (pushed & Heq & Hsub & Hsorted & Hcov).
    exists pushed. split_and!; [done|by apply sublist_cons|done|].
    constructor; [|done]. right. apply Exists_app. left.
    apply forallb_false_Exists in Hfresh.
    eapply Exists_impl; [exact Hfresh|].
    intros o Ho. simpl in Ho. by destruct (equals a o).
Qed.

Lemma uniq_FirstOccurrences l : FirstOccurrences equals l (RA.uniq equals l).
Proof.
  destruct (uniq_loop l []) as (pushed & Heq & Hsub & Hsorted & Hcov);
    [constructor|].
  unfold RA.uniq. fold step. rewrite Heq. by repeat split.
Qed.
End UniqFacts.

(** ** [union] *)

Lemma sortByWeightDesc_Permutation l : sortByWeightDesc l ≡ₚ l.
Proof. apply sort_Permutation. Qed.

Lemma sortByWeightDesc_sorted l : StronglySorted byWeightDesc (sortByWeightDesc l).
Proof.
  apply sort_StronglySorted.
  - intros x y. unfold Order.reverse, Order.contramap, Number.Order, byWeightDesc.
    rewrite Nat.compare_gt_iff. lia.
  - intros x y. unfold Order.reverse, Order.contramap, Number.Order, byWeightDesc.
    rewrite Nat.compare_gt_iff. lia.
  - intros x y z. unfold byWeightDesc. lia.
Qed.

Lemma membersOrSelf_Flattened candidates :
  Flattened candidates (RA.flatMap membersOrSelf candidates).
Proof.
  intros x. unfold RA.flatMap.
  rewrite list_elem_of_In, in_flat_map. split.
  - intros (c & Hc & Hx). exists c. split; [by apply list_elem_of_In|].
    destruct c; simpl in Hx; try (by destruct Hx as [<-|[]]).
    by apply list_elem_of_In.
  - intros (c & Hc & Hx). exists c. split; [by apply list_elem_of_In|].
    destruct c; simpl; try (by left). by apply list_elem_of_In.
Qed.

Lemma fold_left_add_sum {A : Type} (w : A -> nat) (l : list A) (n : nat) :
  fold_left (fun n a => n + w a) l n = n + list_sum (List.map w l).
Proof.
  revert n. induction l as [|a l IH]; intros n; simpl; [lia|].
  rewrite IH. lia.
Qed.

Lemma getWeight_table ast : getWeight ast = weightOfKind getWeight ast.
Proof. destruct ast; try done. simpl. by rewrite fold_left_add_sum. Qed.

(** C1: for every list of candidates, [union] flattens the candidates that are
    Unions into their members, keeps the first of the members that equal one
    another, and then returns a [never] node with the given annotations when
    nothing remains, the remaining member itself when one remains, and
    otherwise a Union that stores the remaining members sorted descending by
    weight; the weight of a node is that of the table of its kind (Tuple:
    elements plus one for a rest; Struct: fields plus index signatures; Union:
    sum of the weights of the members; Lazy: 10; TypeAlias: the weight of the
    wrapped type; every other kind: 0). *)
Theorem union_flattens_dedups_sorts (equals : AST -> AST -> bool)
    (candidates : list AST) (annotations : option Annotations) :
  (exists flat uniq,
     Flattened candidates flat /\
     FirstOccurrences equals flat uniq /\
     match uniq with
     | [] => union equals candidates annotations = neverKeyword annotations
     | [member] => union equals candidates annotations = member
     | _ =>
         exists members,
           union equals candidates annotations =
             Union members (default ∅ annotations) /\
           members ≡ₚ uniq /\
           StronglySorted byWeightDesc members /\
           2 <= length members
     end) /\
  (forall ast, getWeight ast = weightOfKind getWeight ast).
Proof.
  split; [|apply getWeight_table].
  exists (RA.flatMap membersOrSelf candidates),
         (RA.uniq equals (RA.flatMap membersOrSelf candidates)).
  split; [apply membersOrSelf_Flattened|].
  split; [apply uniq_FirstOccurrences|].
  unfold union.
  destruct (RA.uniq equals (RA.flatMap membersOrSelf candidates))
    as [|m1 [|m2 rest]] eqn:E; [done..|].
  eexists. split; [done|].
  split; [apply sortByWeightDesc_Permutation|].
  split; [apply sortByWeightDesc_sorted|].
  rewrite sortByWeightDesc_Permutation. simpl. lia.
Qed.

(** ** Appending to a tuple *)

(** C6: [appendRestElement] fails, with the error of a rest following a rest,
    exactly on a tuple that has a rest; [appendElement] fails, with the error
    of a required element following an optional one, exactly when the new
    element is required and the tuple has an optional element, and fails, with
    the error of an optional element following a rest, exactly when the new
    element is optional and the tuple has a rest; both succeed in every other
    case. *)
Theorem append_fails_exactly_on_violations
    (ast : TupleNode) (restElement : AST) (newElement : Element)
    (annotations : option Annotations) :
  let requiredAfterOptional :=
    Exists (fun e => el_isOptional e = true) (elements ast) /\
    el_isOptional newElement = false in
  let optionalAfterRest :=
    is_Some (rest ast) /\ el_isOptional newElement = true in
  (is_Some (rest ast) <->
   appendRestElement ast restElement annotations =
     Throw (Error "A rest element cannot follow another rest element. ts(1265)")) /\
  (rest ast = None <->
   isOk (appendRestElement ast restElement annotations) = true) /\
  (requiredAfterOptional <->
   appendElement ast newElement annotations =
     Throw (Error "A required element cannot follow an optional element. ts(1257)")) /\
  (optionalAfterRest <->
   appendElement ast newElement annotations =
     Throw (Error "An optional element cannot follow a rest element. ts(1266)")) /\
  (~ requiredAfterOptional /\ ~ optionalAfterRest <->
   isOk (appendElement ast newElement annotations) = true).
Proof.
  simpl. unfold appendRestElement, appendElement.
  assert (Hex : existsb el_isOptional (elements ast) = true <->
                Exists (fun e => el_isOptional e = true) (elements ast)).
  { rewrite existsb_exists, Exists_exists.
    by setoid_rewrite list_elem_of_In. }
  destruct (existsb el_isOptional (elements ast)) eqn:Hopt;
    destruct (el_isOptional newElement) eqn:Hnew;
    destruct (rest ast) as [r|] eqn:Hrest; simpl;
    rewrite <- ?Hex; rewrite ?is_Some_alt;
    repeat split; try done; try (intros [? ?]; done); try tauto;
    try (intros [H1 H2]; exfalso; apply H1 || apply H2; by split).
Qed.

(** C10: when they succeed, [appendRestElement] and [appendElement] return a
    tuple that keeps the elements of the given tuple (with the new element
    after them when it becomes an element) and its [isReadonly] flag, while its
    [allowUnexpected] is [false] and its annotations are the annotations
    argument, empty when omitted, whatever the [allowUnexpected] flag and the
    annotations of the given tuple are. *)
Theorem append_resets_allowUnexpected_and_annotations
    (t t' : TupleNode) (restElement : AST) (newElement : Element)
    (newAnnotations : option Annotations) (withRest withElement : TupleNode) :
  appendRestElement t restElement newAnnotations = Ok withRest ->
  appendElement t' newElement newAnnotations = Ok withElement ->
  (elements withRest = elements t /\
   rest withRest = Some (NonEmpty restElement []) /\
   isReadonly withRest = isReadonly t /\
   allowUnexpected withRest = false /\
   annotations withRest = default ∅ newAnnotations) /\
  (elements t' `prefix_of` elements withElement /\
   match rest t' with
   | None =>
       elements withElement = elements t' ++ [newElement] /\
       rest withElement = None
   | Some r =>
       elements withElement = elements t' /\
       rest withElement = Some (appendNonEmpty r (el_type newElement))
   end /\
   isReadonly withElement = isReadonly t' /\
   allowUnexpected withElement = false /\
   annotations withElement = default ∅ newAnnotations).
Proof.
  unfold appendRestElement, appendElement.
  destruct (rest t) as [r|] eqn:Hrest; [done|].
  destruct (existsb el_isOptional (elements t') && negb (el_isOptional newElement));
    [done|].
  intros [= <-]. split; [done|].
  destruct (rest t') as [r'|] eqn:Hrest'.
  - destruct (el_isOptional newElement); [done|].
    simplify_eq. by split_and!.
  - simplify_eq. simpl. split_and!; try done. by apply prefix_app_r.
Qed.

(** A tuple with an optional element, a rest, the [allowUnexpected] flag and an
    annotation, to which a required element is appended. *)
Lemma append_resets_allowUnexpected_and_annotations_witness :
  let t := mkTuple [mkElement string_ false ∅] None true {[inl "title" := VNull]} true in
  let t' := mkTuple [mkElement string_ false ∅] (Some (NonEmpty number [])) true
                    {[inl "title" := VNull]} true in
  let withRest := mkTuple [mkElement string_ false ∅] (Some (NonEmpty symbol []))
                          true ∅ false in
  let withElement := mkTuple [mkElement string_ false ∅]
                             (Some (NonEmpty number [symbol])) true ∅ false in
  appendRestElement t symbol None = Ok withRest /\
  appendElement t' (mkElement symbol false ∅) None = Ok withElement /\
  allowUnexpected withRest = false /\ annotations withRest = ∅ /\
  allowUnexpected withElement = false /\ annotations withElement = ∅.
Proof.
  intros t t' withRest withElement.
  assert (H1 : appendRestElement t symbol None = Ok withRest) by reflexivity.
  assert (H2 : appendElement t' (mkElement symbol false ∅) None = Ok withElement)
    by reflexivity.
  pose proof (append_resets_allowUnexpected_and_annotations
                t t' symbol (mkElement symbol false ∅) None withRest withElement
                H1 H2) as [(_ & _ & _ & Ha & Hb) (_ & _ & _ & Hc & Hd)].
  split_and!; done.
Defined.

(** ** [keyof] *)

Lemma getIndexSignaturesKeys_loop indexSignatures keys keyType :
  keysAt
    (fold_left
       (fun out sig =>
          match is_key sig with
          | KSymbol => mkKeys (ks_string out) (ks_number out) true
          | KNumber => mkKeys (ks_string out) true (ks_symbol out)
          | KString => mkKeys true true (ks_symbol out)
          end)
       indexSignatures keys)
    keyType =
  keysAt keys keyType ||
  existsb (fun sig : IndexSignature => covers (is_key sig) keyType) indexSignatures.
Proof.
  revert keys. induction indexSignatures as [|sig sigs IH]; intros keys; simpl.
  { by rewrite orb_false_r. }
  rewrite IH.
  destruct (is_key sig), keyType, keys as [[] [] []]; simpl; try done;
    by destruct (existsb _ sigs).
Qed.

Lemma getIndexSignaturesKeys_covers indexSignatures keyType :
  keysAt (getIndexSignaturesKeys indexSignatures) keyType =
  existsb (fun sig => covers (is_key sig) keyType) indexSignatures.
Proof.
  unfold getIndexSignaturesKeys. rewrite getIndexSignaturesKeys_loop.
  by destruct keyType.
Qed.

Section KeyofFacts.
Variable equals : AST -> AST -> bool.

Lemma intersection_elem_of (that self : list AST) a :
  a ∈ RA.intersection equals that self <->
  a ∈ self /\ Exists (fun b => equals a b = true) that.
Proof.
  unfold RA.intersection.
  rewrite list_elem_of_In, filter_In, <- list_elem_of_In.
  rewrite existsb_exists, Exists_exists.
  by setoid_rewrite list_elem_of_In.
Qed.

Lemma intersection_sublist (that self : list AST) :
  sublist (RA.intersection equals that self) self.
Proof.
  unfold RA.intersection. induction self as [|a self IH]; simpl; [done|].
  destruct (existsb _ that); by constructor.
Qed.

Lemma intersections_spec (kss : list (list AST)) (out0 : list AST) :
  let out := fold_left (fun out ks => RA.intersection equals ks out) kss out0 in
  sublist out out0 /\
  forall a, a ∈ out <->
            a ∈ out0 /\
            Forall (fun ks => Exists (fun b => equals a b = true) ks) kss.
Proof.
  revert out0. induction kss as [|ks kss IH]; intros out0; simpl.
  { split; [done|]. intros a. split; [by split|by intros [? _]]. }
  destruct (IH (RA.intersection equals ks out0)) as [Hsub Hiff].
  split; [etrans; [exact Hsub|apply intersection_sublist]|].
  intros a. rewrite Hiff, intersection_elem_of, Forall_cons. tauto.
Qed.

Lemma keyof_union_loop (members : list AST) (kss : list (list AST))
    (out0 : list AST) :
  Forall2 (fun member ks => keyof equals member = Ok ks) members kss ->
  fold_left
    (fun acc member =>
       out ← acc; ks ← keyof equals member; Ok (RA.intersection equals ks out))
    members (Ok out0) =
  Ok (fold_left (fun out ks => RA.intersection equals ks out) kss out0).
Proof.
  intros H. revert out0.
  induction H as [|member ks members kss Hk _ IH]; intros out0; simpl; [done|].
  rewrite Hk. simpl. apply IH.
Qed.
End KeyofFacts.

(** C4: [keyof] of a Struct returns the keys of its fields, as literal or
    unique-symbol nodes, without the fields whose type of key is covered by the
    domain of an index signature, followed by the key-domain node of each index
    signature; [keyof] of a Union whose members all have keys returns the keys
    of the first member that have an equal among the keys of every other
    member; [keyof] of [never] and of [any] is [string, number, symbol]; and
    [keyof] of a TypeAlias, a Lazy or a Refinement is [keyof] of the wrapped,
    produced or refined node. *)
Theorem keyof_by_kind (equals : AST -> AST -> bool)
    (member0 : AST) (others : list AST)
    (keys0 : list AST) (keys : list (list AST)) :
  keyof equals member0 = Ok keys0 ->
  Forall2 (fun member ks => keyof equals member = Ok ks) others keys ->
  (forall fields indexSignatures annotations allowUnexpected,
     keyof equals (Struct fields indexSignatures annotations allowUnexpected) =
     Ok (List.map (fun f => getPropertyKeyAST (fd_key f))
           (List.filter (fun f => negb (coveredBy indexSignatures (fd_key f)))
                        fields) ++
         List.map (getIndexSignatureAST equals) indexSignatures)) /\
  (forall s n sym,
     getPropertyKeyAST (PKString s) = LiteralType (LString s) ∅ /\
     getPropertyKeyAST (PKNumber n) = LiteralType (LNumber n) ∅ /\
     getPropertyKeyAST (PKSymbol sym) = UniqueSymbol sym ∅) /\
  (forall value isReadonly annotations,
     getIndexSignatureAST equals
       (mkIndexSignature KSymbol value isReadonly annotations) = symbol /\
     getIndexSignatureAST equals
       (mkIndexSignature KNumber value isReadonly annotations) = number /\
     getIndexSignatureAST equals
       (mkIndexSignature KString value isReadonly annotations) =
       union equals [string_; number] None) /\
  (forall annotations,
     exists out,
       keyof equals (Union (member0 :: others) annotations) = Ok out /\
       sublist out keys0 /\
       forall a, a ∈ out <->
                 a ∈ keys0 /\
                 Forall (fun ks => Exists (fun b => equals a b = true) ks) keys) /\
  (forall annotations,
     keyof equals (NeverKeyword annotations) = Ok [string_; number; symbol] /\
     keyof equals (AnyKeyword annotations) = Ok [string_; number; symbol]) /\
  (forall typeParameters type f from refinement meta annotations,
     keyof equals (TypeAlias typeParameters type annotations) = keyof equals type /\
     keyof equals (Lazy f annotations) = keyof equals (f tt) /\
     keyof equals (Refinement from refinement meta annotations) =
       keyof equals from).
Proof.
  intros H0 Hothers. split_and!; try done.
  - intros fields indexSignatures annotations allowUnexpected. simpl.
    do 3 f_equal. apply filter_ext. intros f.
    by rewrite getIndexSignaturesKeys_covers.
  - intros annotations. eexists. simpl. rewrite H0.
    split; [by apply keyof_union_loop|].
    apply intersections_spec.
Qed.

(** C9: [keyof] throws [cannot `keyof` on this AST] on a StringKeyword, on a
    LiteralType and on a Tuple, which are the kinds of the default branch,
    whereas it returns [[never]] on the number, boolean, bigint, symbol,
    undefined, void, object and unknown keywords, on a unique symbol and on
    enums. *)
Theorem keyof_throws_on_string_literal_tuple (equals : AST -> AST -> bool) :
  (forall annotations literal node,
     keyof equals (StringKeyword annotations) =
       Throw (Error "cannot `keyof` on this AST") /\
     keyof equals (LiteralType literal annotations) =
       Throw (Error "cannot `keyof` on this AST") /\
     keyof equals (Tuple node) = Throw (Error "cannot `keyof` on this AST")) /\
  (forall annotations sym entries,
     keyof equals (NumberKeyword annotations) = Ok [never] /\
     keyof equals (BooleanKeyword annotations) = Ok [never] /\
     keyof equals (BigIntKeyword annotations) = Ok [never] /\
     keyof equals (SymbolKeyword annotations) = Ok [never] /\
     keyof equals (UndefinedKeyword annotations) = Ok [never] /\
     keyof equals (VoidKeyword annotations) = Ok [never] /\
     keyof equals (ObjectKeyword annotations) = Ok [never] /\
     keyof equals (UnknownKeyword annotations) = Ok [never] /\
     keyof equals (UniqueSymbol sym annotations) = Ok [never] /\
     keyof equals (Enums entries annotations) = Ok [never]) /\
  (forall ast,
     match ast with
     | TypeAlias _ _ _ | Lazy _ _ | Refinement _ _ _ _ | Union _ _
     | Struct _ _ _ _ | NeverKeyword _ | AnyKeyword _ => True
     | _ =>
         keyof equals ast =
         if bool_decide (tagOf ast ∈ ["StringKeyword"; "LiteralType"; "Tuple"])
         then Throw (Error "cannot `keyof` on this AST")
         else Ok [never]
     end).
Proof.
  split_and!; try done. by intros [].
Qed.

(** The keys of [never | any]-like unions: every key of the first member has
    an equal among the keys of the second. *)
Lemma keyof_by_kind_witness :
  keyof structuralEquals never = Ok [string_; number; symbol] /\
  Forall2 (fun member ks => keyof structuralEquals member = Ok ks)
          [anyKeyword None; exampleStructAC]
          [[string_; number; symbol];
           [literalType (LString "a") None; literalType (LString "c") None]] /\
  keyof structuralEquals
        (Union [never; anyKeyword None; exampleStructAC] ∅) = Ok [] /\
  keyof structuralEquals (Union [never; anyKeyword None] ∅) =
    Ok [string_; number; symbol].
Proof.
  assert (H0 : keyof structuralEquals never = Ok [string_; number; symbol])
    by reflexivity.
  assert (H1 : Forall2 (fun member ks => keyof structuralEquals member = Ok ks)
                 [anyKeyword None; exampleStructAC]
                 [[string_; number; symbol];
                  [literalType (LString "a") None; literalType (LString "c") None]])
    by (repeat constructor).
  split; [exact H0|]. split; [exact H1|].
  destruct (keyof_by_kind structuralEquals _ _ _ _ H0 H1)
    as (_ & _ & _ & Hunion & _).
  destruct (Hunion ∅) as (out & Hout & _ & _).
  split; [|by vm_compute].
  rewrite Hout. f_equal.
  by vm_compute in Hout; injection Hout as <-.
Defined.

(** ** [partial] *)

(** C7, as the code has it: [partial] works on the node it is given and does
    not descend into the value types of fields or the types of elements. It
    makes every field of a Struct and every element of a Tuple optional,
    keeping their keys, value types and types as they are; replaces the rest
    types of a Tuple by the single union of those types and [undefined]; is
    the union of the [partial] of the members on a Union; is a Lazy producing
    the [partial] of the produced node on a Lazy; is the [partial] of the
    wrapped or refined node on a TypeAlias or a Refinement; and returns a node
    of any other kind unchanged. *)
Theorem partial_by_kind (equals : AST -> AST -> bool) :
  (forall fields indexSignatures annotations allowUnexpected,
     let result :=
       partial equals (Struct fields indexSignatures annotations allowUnexpected) in
     result = struct (List.map makeOptional fields) indexSignatures None None /\
     Forall (fun f => fd_isOptional f = true) (fieldsOf result) /\
     fieldsOf result ≡ₚ List.map makeOptional fields /\
     indexSignaturesOf result ≡ₚ indexSignatures) /\
  (forall node,
     partial equals (Tuple node) =
     Tuple
       (mkTuple
          (List.map (fun e => mkElement (el_type e) true ∅) (elements node))
          (option_map
             (fun r =>
                NonEmpty (union equals (toList r ++ [undefinedKeyword None]) None) [])
             (rest node))
          (isReadonly node) ∅ false)) /\
  (forall members annotations,
     partial equals (Union members annotations) =
     union equals (List.map (partial equals) members) None) /\
  (forall f annotations,
     partial equals (Lazy f annotations) =
     Lazy (fun _ => partial equals (f tt)) ∅) /\
  (forall typeParameters type from refinement meta annotations,
     partial equals (TypeAlias typeParameters type annotations) =
       partial equals type /\
     partial equals (Refinement from refinement meta annotations) =
       partial equals from) /\
  (forall ast,
     match ast with
     | TypeAlias _ _ _ | Tuple _ | Struct _ _ _ _ | Union _ _ | Lazy _ _
     | Refinement _ _ _ _ => True
     | _ => partial equals ast = ast
     end).
Proof.
  split_and!; try done; [|by intros []].
  intros fields indexSignatures annotations allowUnexpected. simpl.
  split_and!; [done| |apply sortByCardinalityAsc_Permutation
                     |apply sortByCardinalityAsc_Permutation].
  eapply Permutation_Forall;
    [symmetry; apply sortByCardinalityAsc_Permutation|].
  apply Forall_forall. intros f Hf. apply list_elem_of_In, in_map_iff in Hf.
  by destruct Hf as (f' & <- & _).
Qed.

(** C7, as the specification has it, fails on a Struct inside a Struct:
    [partial] makes the outer field optional and keeps its value, the inner
    Struct, whose fields stay required. *)
Lemma partial_keeps_inner_struct_fields_required :
  partial structuralEquals
    (struct [field (PKString "inner") exampleStructAC false true None] [] None None) =
    Struct [field (PKString "inner") exampleStructAC true true None] [] ∅ false /\
  fieldsOf exampleStructAC = [exampleFieldA; exampleFieldC] /\
  fd_isOptional exampleFieldA = false /\
  specEveryFieldAndElementOptional
    (partial structuralEquals
       (struct [field (PKString "inner") exampleStructAC false true None] []
               None None)) = false.
Proof. by split_and!. Qed.

(** ** [record] *)

(** Induction on the members of Unions. *)
Lemma AST_members_ind (P : AST -> Prop) :
  (forall members annotations, Forall P members -> P (Union members annotations)) ->
  (forall ast, isUnion ast = false -> P ast) ->
  forall ast, P ast.
Proof.
  intros HU Hother. fix IH 1. intros ast.
  destruct ast as [| | | | | | | | | | | | | | | |members ann| | |];
    try (by apply Hother).
  apply HU. revert members. fix IHmembers 1.
  intros [|member members]; constructor; [apply IH|apply IHmembers].
Qed.

Lemma sortByCardinalityAsc_same_value {T : Type} `{HasValue T}
    (l : list T) (v : AST) :
  Forall (fun x => value x = v) l -> sortByCardinalityAsc l = l.
Proof.
  intros Hl. apply sort_in_order.
  induction Hl as [|x l Hx Hl IH]; constructor; [done|].
  destruct Hl as [|y l Hy _]; constructor.
  unfold Order.contramap, Number.Order. rewrite Hx, Hy.
  by rewrite Nat.compare_refl.
Qed.

Section RecordFacts.
Variables (value : AST) (isReadonly : bool).

(** The state after the leaves [leaves] were read from the state [st]. *)
Let pushed (st : RecordState) (leaves : list AST) : RecordState :=
  mkRecordState
    (rs_fields st ++ List.flat_map (fieldsOfLeaf value isReadonly) leaves)
    (rs_indexSignatures st ++
     List.flat_map (indexSignaturesOfLeaf value isReadonly) leaves).

Let outcomeOf (st : RecordState) (leaves : list AST) : result RecordState :=
  match List.filter (fun leaf => negb (isKeyKind leaf)) leaves with
  | [] => Ok (pushed st leaves)
  | leaf :: _ => Throw (recordError leaf)
  end.

Lemma forEach_go_Throw (members : list AST) (e : Exn) :
  fold_left (fun acc member => st' ← acc; go value isReadonly member st')
            members (Throw e) = Throw e.
Proof. induction members as [|m ms IH]; simpl; [done|apply IH]. Qed.

Lemma go_spec (key : AST) (st : RecordState) :
  go value isReadonly key st = outcomeOf st (keyLeaves key).
Proof.
  revert st. induction key as [members ann IH|key Hkey] using AST_members_ind;
    intros st.
  - simpl. revert st. induction IH as [|m ms Hm _ IHms]; intros st.
    { unfold outcomeOf, pushed. simpl. rewrite !app_nil_r. by destruct st. }
    simpl. rewrite Hm. unfold outcomeOf at 1 2.
    rewrite List.filter_app.
    destruct (List.filter _ (keyLeaves m)) as [|leaf leaves] eqn:Hfilter; simpl.
    + rewrite IHms. unfold outcomeOf.
      destruct (List.filter _ (List.flat_map keyLeaves ms)); [|done].
      unfold pushed. simpl. by rewrite !flat_map_app, !app_assoc.
    + apply forEach_go_Throw.
  - unfold outcomeOf, pushed.
    destruct key as [| l ? | | | | | | | | | | | | | | | | | |];
      try discriminate Hkey; simpl; try destruct l; simpl;
      rewrite ?app_nil_r; try done; by destruct st.
Qed.
End RecordFacts.

Lemma fieldsOfLeaf_value value isReadonly leaves :
  Forall (fun f : Field => fd_value f = value)
         (List.flat_map (fieldsOfLeaf value isReadonly) leaves).
Proof.
  apply Forall_flat_map, Forall_forall. intros leaf _.
  destruct leaf as [| [] ? | | | | | | | | | | | | | | | | | |];
    repeat constructor.
Qed.

Lemma indexSignaturesOfLeaf_value value isReadonly leaves :
  Forall (fun s : IndexSignature => is_value s = value)
         (List.flat_map (indexSignaturesOfLeaf value isReadonly) leaves).
Proof.
  apply Forall_flat_map, Forall_forall. intros leaf _.
  destruct leaf; repeat constructor.
Qed.

(** C5, as the code has it: [record] reads the key, or the leaves of the Unions
    it is made of, from left to right. When every leaf is a [never], string,
    number or symbol keyword, a literal or a unique symbol, it returns the
    Struct whose fields are the string literals, number literals and unique
    symbols among the leaves, as required fields with the given value, and
    whose index signatures are the string, number and symbol keywords among
    them; a [never] leaf and a boolean, null or bigint literal leaf contribute
    nothing. Otherwise it fails with the error of the first other leaf: the
    refinement error on a Refinement, the constraint error on any other
    kind. *)
Theorem record_reads_key_leaves (key value : AST) (isReadonly : bool) :
  match List.filter (fun leaf => negb (isKeyKind leaf)) (keyLeaves key) with
  | [] =>
      record key value isReadonly =
      Ok (Struct
            (List.flat_map (fieldsOfLeaf value isReadonly) (keyLeaves key))
            (List.flat_map (indexSignaturesOfLeaf value isReadonly) (keyLeaves key))
            ∅ false)
  | leaf :: _ => record key value isReadonly = Throw (recordError leaf)
  end.
Proof.
  unfold record. rewrite go_spec.
  destruct (List.filter _ (keyLeaves key)) as [|leaf leaves]; [|done].
  simpl. unfold struct. simpl.
  rewrite (sortByCardinalityAsc_same_value _ value)
    by apply fieldsOfLeaf_value.
  rewrite (sortByCardinalityAsc_same_value _ value)
    by apply indexSignaturesOfLeaf_value.
  done.
Qed.

(** C5, as the specification has it, fails on a boolean literal key: the key is
    not key-like, and [record] returns the empty Struct. *)
Lemma record_accepts_boolean_literal_key :
  specKeyLike (literalType (LBoolean true) None) = false /\
  record (literalType (LBoolean true) None) string_ false =
    Ok (Struct [] [] ∅ false).
Proof. split; reflexivity. Qed.

(** ** The error model *)

Section ErrorModel.
Import ParseResult.

Lemma compositesNonEmpty_always (e : ParseErrors) : compositesNonEmpty e = true.
Proof.
  revert e. fix IH 1. intros e.
  assert (Hinner : forall inner : NonEmptyReadonlyArray ParseErrors,
            (1 <=? length (toList inner)) &&
            compositesNonEmpty (headNonEmpty inner) &&
            forallb compositesNonEmpty (tailNonEmpty inner) = true).
  { intros [e' es]. simpl. rewrite IH. simpl.
    induction es as [|e'' es IHes]; simpl; [done|].
    by rewrite IH, IHes. }
  destruct e; simpl; try done; apply Hinner.
Qed.

Lemma toList_non_empty {A : Type} (self : NonEmptyReadonlyArray A) :
  1 <= length (toList self).
Proof. simpl. lia. Qed.

(** C8: a ParseError wraps at least one entry, and so does every Index, Key and
    UnionMember, at any depth inside an error; the outcome of a result is a
    success value or one ParseError, which has at least one entry, and not
    both; [failure] wraps exactly the given entry and [failures] the given
    non-empty sequence. *)
Theorem errors_are_never_empty :
  (forall error : ParseError,
     1 <= length (entries error) /\
     Forall (fun e => compositesNonEmpty e = true) (entries error)) /\
  (forall (i : nat) (k : PropertyKey) (inner : NonEmptyReadonlyArray ParseErrors),
     index i inner = Index i inner /\
     key k inner = Key k inner /\
     unionMember inner = UnionMember inner /\
     1 <= length (toList inner)) /\
  (forall (A : Type) (self : ParseResult A),
     (exists a, outcome self = Right a /\ forall error, outcome self <> Left error) \/
     (exists error, outcome self = Left error /\ 1 <= length (entries error) /\
                    forall a, outcome self <> Right a)) /\
  (forall (A : Type) (e : ParseErrors) (es : NonEmptyReadonlyArray ParseErrors),
     (exists error, outcome (@failure A e) = Left error /\ entries error = [e]) /\
     (exists error, outcome (@failures A es) = Left error /\
                    entries error = toList es)).
Proof.
  split_and!.
  - intros error. split; [apply toList_non_empty|].
    apply Forall_forall. intros e _. apply compositesNonEmpty_always.
  - intros i k inner. split_and!; [done..|apply toList_non_empty].
  - intros A self. destruct (outcome self) as [error|a] eqn:E.
    + right. exists error. split_and!; [done|apply toList_non_empty|done].
    + left. exists a. by split.
  - intros A e es. split; eexists; by split.
Qed.
End ErrorModel.

(** ** The operations on concrete schemas *)

Example union_of_nothing : union structuralEquals [] None = never.
Proof. reflexivity. Qed.

Example union_of_duplicates :
  union structuralEquals [string_; stringKeyword None] None = string_.
Proof. reflexivity. Qed.

Example union_of_nested_union :
  union structuralEquals
    [number; Union [exampleStructAC; string_] ∅; string_; lazy (fun _ => never) None]
    None =
  Union [lazy (fun _ => never) None; exampleStructAC; number; string_] ∅.
Proof. reflexivity. Qed.

Example struct_of_unsorted_fields :
  struct [exampleFieldC; field (PKString "u") (unknownKeyword None) true false None;
          exampleFieldA]
         [] None None =
  Struct [exampleFieldA; exampleFieldC;
          field (PKString "u") (unknownKeyword None) true false None]
         [] ∅ false.
Proof. reflexivity. Qed.

Example keyof_of_struct_with_number_signature :
  keyof structuralEquals
    (struct [exampleFieldA; field (PKNumber 0%Z) string_ false true None]
            [indexSignature KNumber string_ true None] None None) =
  Ok [literalType (LString "a") None; number].
Proof. reflexivity. Qed.

Example keyof_of_string_or_number :
  keyof structuralEquals (union structuralEquals [string_; number] None) =
  Throw (Error "cannot `keyof` on this AST").
Proof. reflexivity. Qed.

Example record_of_union_key :
  record (Union [literalType (LString "x") None; never; string_;
                 literalType LNull None; uniqueSymbol 1%positive None] ∅)
         number true =
  Ok (Struct [field (PKString "x") number false true None;
              field (PKSymbol 1%positive) number false true None]
             [indexSignature KString number true None] ∅ false).
Proof. reflexivity. Qed.

Example record_of_refinement_in_union :
  record (Union [string_; refinement string_ (fun _ => true) VNull None;
                 booleanKeyword None] ∅)
         number true =
  Throw (Error "cannot handle refinements in `record`").
Proof. reflexivity. Qed.

Example record_of_boolean_keyword :
  record (booleanKeyword None) number true =
  Throw (Error "Type 'BooleanKeyword' does not satisfy the constraint 'string | number | symbol'. ts(2344)").
Proof. reflexivity. Qed.

(** The value type of a field is kept as it is: the fields of a Struct inside
    a Struct stay required. *)
Example partial_of_struct_in_struct :
  partial structuralEquals
    (struct [field (PKString "inner") exampleStructAC false true None] [] None None) =
  Struct [field (PKString "inner") exampleStructAC true true None] [] ∅ false.
Proof. reflexivity. Qed.

Example partial_of_tuple_with_rest :
  partial structuralEquals
    (Tuple (tuple [element string_ false None]
                  (Some (NonEmpty number [string_])) true None None)) =
  Tuple (tuple [element string_ true None]
               (Some (NonEmpty
                        (Union [number; string_; undefinedKeyword None] ∅) []))
               true None None).
Proof. reflexivity. Qed.

(** * Further properties of the code *)

(** ** [annotations] *)

(** X1: [annotations] merges the given entries over those of the node: a key
    of the argument takes the value of the argument, any other key keeps the
    value the node had; without an argument the node is returned as it is;
    and annotating twice is annotating once with the second argument merged
    over the first. *)
Theorem annotations_merges_over_node :
  (forall ast given k,
     annotationsOf (annotations_ ast (Some given)) !! k =
     match given !! k with
     | Some v => Some v
     | None => annotationsOf ast !! k
     end) /\
  (forall ast, annotations_ ast None = ast) /\
  (forall ast first second,
     annotations_ (annotations_ ast (Some first)) (Some second) =
     annotations_ ast (Some (second ∪ first))).
Proof.
  split_and!.
  - intros ast given k.
    assert (H : annotationsOf (annotations_ ast (Some given)) =
                given ∪ annotationsOf ast) by (by destruct ast).
    rewrite H, lookup_union. by destruct (given !! k), (annotationsOf ast !! k).
  - intros ast. unfold annotations_. simpl. rewrite (left_id_L ∅ (∪)).
    by destruct ast as [| | | | | | | | | | | | | |[]| | | | |].
  - intros ast first second.
    destruct ast as [| | | | | | | | | | | | | |[]| | | | |]; simpl;
      by rewrite (assoc_L (∪)).
Qed.

(** X2: the annotations of a node take no part in its tag, cardinality, weight,
    keys, property keys and fields: all are the same after [annotations]. *)
Theorem annotations_change_nothing_else (equals : AST -> AST -> bool)
    (ast : AST) (given : option Annotations) :
  tagOf (annotations_ ast given) = tagOf ast /\
  getCardinality (annotations_ ast given) = getCardinality ast /\
  getWeight (annotations_ ast given) = getWeight ast /\
  keyof equals (annotations_ ast given) = keyof equals ast /\
  propertyKeys (annotations_ ast given) = propertyKeys ast /\
  getFields equals (annotations_ ast given) = getFields equals ast.
Proof. by destruct ast. Qed.

(** ** Stability of the stored order *)

Section StableSortFacts.
Context {A : Type} (O : Order.Order A) (R : relation A).
Hypothesis R_le : forall x y, O x y <> Gt -> R x y.
Hypothesis R_gt : forall x y, O x y = Gt -> R y x.
Hypothesis R_O : forall x y, R x y -> O x y <> Gt.
Context `{!Transitive R}.

Lemma O_trans x y z : O x y <> Gt -> R y z -> O x z <> Gt.
Proof. intros Hxy Hyz. apply R_O. etrans; [by apply R_le|done]. Qed.

Lemma insert_in_front x l :
  HdRel (fun a b => O a b <> Gt) x l -> RA.insert O x l = x :: l.
Proof. destruct 1 as [|y l Hxy]; simpl; [done|]. by destruct (O x y). Qed.

Lemma filter_insert (p : A -> bool) x l :
  StronglySorted R l ->
  List.filter p (RA.insert O x l) =
  if p x then RA.insert O x (List.filter p l) else List.filter p l.
Proof.
  induction 1 as [|y l Hl IH Hy]; simpl.
  { by destruct (p x). }
  destruct (O x y) eqn:E.
  3: { simpl. rewrite IH. destruct (p y), (p x); simpl; by rewrite ?E. }
  all: simpl; destruct (p x); [|done].
  all: symmetry; apply insert_in_front.
  all: assert (Hall : Forall (fun z => O x z <> Gt) (y :: l))
         by (constructor; [congruence|];
             eapply Forall_impl; [exact Hy|];
             intros z Hz; apply (O_trans x y z); [congruence|done]).
  all: change (if p y then y :: List.filter p l else List.filter p l)
         with (List.filter p (y :: l)).
  all: assert (Hf : Forall (fun z => O x z <> Gt) (List.filter p (y :: l)))
         by (apply Forall_forall; intros z Hz;
             apply list_elem_of_In, filter_In in Hz as [Hz _];
             rewrite Forall_forall in Hall; by apply Hall, list_elem_of_In).
  all: by destruct Hf; constructor.
Qed.

Lemma filter_sort (p : A -> bool) l :
  List.filter p (RA.sort O l) = RA.sort O (List.filter p l).
Proof.
  induction l as [|x l IH]; simpl; [done|].
  rewrite filter_insert by (by apply sort_StronglySorted).
  rewrite IH. by destruct (p x).
Qed.

Lemma sort_idempotent l : RA.sort O (RA.sort O l) = RA.sort O l.
Proof.
  apply sort_in_order.
  assert (Hs : StronglySorted R (RA.sort O l)) by (by apply sort_StronglySorted).
  apply StronglySorted_Sorted in Hs.
  induction Hs as [|x l' Hl' IH Hx]; constructor; [done|].
  destruct Hx; constructor. by apply R_O.
Qed.
End StableSortFacts.

Lemma sortByCardinalityAsc_filter {T : Type} `{HasValue T}
    (p : T -> bool) (l : list T) :
  List.filter p (sortByCardinalityAsc l) = sortByCardinalityAsc (List.filter p l).
Proof.
  apply (filter_sort _ byCardinality).
  - intros x y. unfold Order.contramap, Number.Order, byCardinality.
    rewrite Nat.compare_gt_iff. lia.
  - intros x y. unfold Order.contramap, Number.Order, byCardinality.
    rewrite Nat.compare_gt_iff. lia.
  - intros x y. unfold Order.contramap, Number.Order, byCardinality.
    rewrite Nat.compare_gt_iff. lia.
  - intros x y z. unfold byCardinality. lia.
Qed.

Lemma sortByCardinalityAsc_idempotent {T : Type} `{HasValue T} (l : list T) :
  sortByCardinalityAsc (sortByCardinalityAsc l) = sortByCardinalityAsc l.
Proof.
  apply (sort_idempotent _ byCardinality).
  - intros x y. unfold Order.contramap, Number.Order, byCardinality.
    rewrite Nat.compare_gt_iff. lia.
  - intros x y. unfold Order.contramap, Number.Order, byCardinality.
    rewrite Nat.compare_gt_iff. lia.
  - intros x y. unfold Order.contramap, Number.Order, byCardinality.
    rewrite Nat.compare_gt_iff. lia.
  - intros x y z. unfold byCardinality. lia.
Qed.

Lemma sortByCardinalityAsc_same_cardinality {T : Type} `{HasValue T}
    (l : list T) (n : nat) :
  Forall (fun x => getCardinality (value x) = n) l -> sortByCardinalityAsc l = l.
Proof.
  intros Hl. apply sort_in_order.
  induction Hl as [|x l Hx Hl IH]; constructor; [done|].
  destruct Hl as [|y l Hy _]; constructor.
  unfold Order.contramap, Number.Order. rewrite Hx, Hy.
  by rewrite Nat.compare_refl.
Qed.

(** X3: [struct] is stable: the fields of one cardinality, and the index
    signatures of one cardinality, are stored in the order in which the caller
    gave them. *)
Theorem struct_keeps_caller_order_within_cardinality
    (fields : list Field) (indexSignatures : list IndexSignature)
    (annotations : option Annotations) (allowUnexpected : option bool) (n : nat) :
  let stored := struct fields indexSignatures annotations allowUnexpected in
  List.filter (fun f => getCardinality (fd_value f) =? n) (fieldsOf stored) =
    List.filter (fun f => getCardinality (fd_value f) =? n) fields /\
  List.filter (fun s => getCardinality (is_value s) =? n) (indexSignaturesOf stored) =
    List.filter (fun s => getCardinality (is_value s) =? n) indexSignatures.
Proof.
  simpl. split.
  - rewrite sortByCardinalityAsc_filter.
    apply (sortByCardinalityAsc_same_cardinality _ n).
    apply Forall_forall. intros f Hf.
    apply list_elem_of_In, filter_In in Hf as [_ Hf]. by apply Nat.eqb_eq.
  - rewrite sortByCardinalityAsc_filter.
    apply (sortByCardinalityAsc_same_cardinality _ n).
    apply Forall_forall. intros f Hf.
    apply list_elem_of_In, filter_In in Hf as [_ Hf]. by apply Nat.eqb_eq.
Qed.

(** X4: a Struct built by [struct] is rebuilt from its own parts as the same
    node: the stored order is a fixed point of the sort. *)
Theorem struct_of_stored_parts_is_same_node
    (fields : list Field) (indexSignatures : list IndexSignature)
    (annotations : option Annotations) (allowUnexpected : option bool) :
  let stored := struct fields indexSignatures annotations allowUnexpected in
  struct (fieldsOf stored) (indexSignaturesOf stored)
         (Some (annotationsOf stored)) (Some (default false allowUnexpected)) =
  stored.
Proof.
  simpl. unfold struct. simpl.
  by rewrite !sortByCardinalityAsc_idempotent.
Qed.

(** ** More on [union] *)

Lemma sublist_Forall {A : Type} (P : A -> Prop) (u l : list A) :
  sublist u l -> Forall P l -> Forall P u.
Proof.
  induction 1 as [|x u l _ IH|x u l _ IH]; intros Hl; [done| |].
  - inversion Hl; subst. constructor; auto.
  - inversion Hl; subst. auto.
Qed.

Lemma StronglySorted_impl_elem_of {A : Type} (R R' : relation A) (l : list A) :
  (forall a b, a ∈ l -> b ∈ l -> R a b -> R' a b) ->
  StronglySorted R l -> StronglySorted R' l.
Proof.
  intros Himpl Hl. induction Hl as [|x l Hl IH Hx]; constructor.
  - apply IH. intros a b Ha Hb. apply Himpl; by right.
  - apply Forall_forall. intros y Hy. rewrite Forall_forall in Hx.
    apply Himpl; [by left|by right|by apply Hx].
Qed.

Lemma StronglySorted_symmetric_Permutation {A : Type} (R : relation A)
    `{!Symmetric R} (l l' : list A) :
  l ≡ₚ l' -> StronglySorted R l -> StronglySorted R l'.
Proof.
  induction 1 as [|x l l' Hperm IH|x y l|l l' l'' _ IH1 _ IH2]; intros Hl.
  - done.
  - apply StronglySorted_cons in Hl as [Hx Hl].
    constructor; [by apply IH|]. by rewrite <- Hperm.
  - apply StronglySorted_cons in Hl as [Hy Hl].
    apply StronglySorted_cons in Hl as [Hx Hl].
    apply Forall_cons in Hy as [Hyx Hy].
    repeat constructor; try done.
  - auto.
Qed.

Section UnionFacts.
Variable equals : AST -> AST -> bool.

Lemma uniq_loop_distinct (l acc : list AST) :
  StronglySorted (fun earlier later => equals later earlier = false) (acc ++ l) ->
  fold_left
    (fun out a =>
       if forallb (fun o => negb (equals a o)) out then out ++ [a] else out)
    l acc = acc ++ l.
Proof.
  revert acc. induction l as [|a l IH]; intros acc Hs; simpl.
  { by rewrite app_nil_r. }
  assert (Hfresh : forallb (fun o => negb (equals a o)) acc = true).
  { apply forallb_forall. intros o Ho.
    apply StronglySorted_app in Hs as (Hcross & _ & _).
    rewrite (Hcross o a); [done|by apply list_elem_of_In|by left]. }
  rewrite Hfresh, IH; rewrite <- app_assoc; done.
Qed.

Lemma uniq_distinct (l : list AST) :
  StronglySorted (fun earlier later => equals later earlier = false) l ->
  RA.uniq equals l = l.
Proof. intros Hl. by apply (uniq_loop_distinct l []). Qed.

Lemma flattened_candidates_not_unions (candidates : list AST) :
  Forall (fun c => if c is Union members _
                   then Forall (fun m => isUnion m = false) members else True)
         candidates ->
  Forall (fun m => isUnion m = false) (RA.flatMap membersOrSelf candidates).
Proof.
  intros H. apply Forall_flat_map. eapply Forall_impl; [exact H|].
  intros c Hc. destruct c; simpl; try (by repeat constructor).
Qed.

Lemma sortByWeightDesc_in_order (l : list AST) :
  sortByWeightDesc (sortByWeightDesc l) = sortByWeightDesc l.
Proof.
  apply sort_in_order.
  pose proof (sortByWeightDesc_sorted l) as Hs.
  apply StronglySorted_Sorted in Hs.
  induction Hs as [|x l' Hl' IH Hx]; constructor; [done|].
  destruct Hx as [|y l'' Hxy]; constructor.
  unfold Order.reverse, Order.contramap, Number.Order.
  rewrite Nat.compare_gt_iff. unfold byWeightDesc in Hxy. lia.
Qed.
End UnionFacts.

(** X5: [union] keeps Unions flat: when no candidate is a Union that has a
    Union among its members, the result is not a Union that has a Union among
    its members; and the result is a Union exactly when at least two members
    remain after the duplicates are removed, with exactly the remaining
    members: it is not a Union when a single member, or none, remains. *)
Theorem union_keeps_unions_flat (equals : AST -> AST -> bool)
    (candidates : list AST) (annotations : option Annotations) :
  Forall (fun c => if c is Union members _
                   then Forall (fun m => isUnion m = false) members else True)
         candidates ->
  let result := union equals candidates annotations in
  let remaining := RA.uniq equals (RA.flatMap membersOrSelf candidates) in
  Forall (fun m => isUnion m = false) (membersOrSelf result) /\
  isUnion result = bool_decide (2 <= length remaining) /\
  match remaining with
  | [] => result = neverKeyword annotations
  | [member] => result = member /\ isUnion member = false
  | _ =>
      exists members,
        result = Union members (default ∅ annotations) /\
        members ≡ₚ remaining /\
        Forall (fun m => isUnion m = false) members
  end.
Proof.
  intros Hflat. apply flattened_candidates_not_unions in Hflat.
  destruct (uniq_FirstOccurrences equals (RA.flatMap membersOrSelf candidates))
    as (Hsub & _ & _).
  pose proof (sublist_Forall _ _ _ Hsub Hflat) as Huniq.
  unfold union. simpl.
  destruct (RA.uniq equals (RA.flatMap membersOrSelf candidates))
    as [|m1 [|m2 ms]] eqn:E.
  - split_and!; [by repeat constructor|done..].
  - inversion Huniq as [|? ? Hm1 _]; subst.
    split_and!; try done.
    destruct m1; try discriminate Hm1; by repeat constructor.
  - assert (Hsorted : Forall (fun m => isUnion m = false)
                        (sortByWeightDesc (m1 :: m2 :: ms))).
    { eapply Permutation_Forall; [|exact Huniq].
      symmetry. apply sortByWeightDesc_Permutation. }
    split_and!; [done|done|].
    eexists. split_and!; [done|apply sortByWeightDesc_Permutation|done].
Qed.

Lemma union_keeps_unions_flat_witness :
  Forall (fun c => if c is Union members _
                   then Forall (fun m => isUnion m = false) members else True)
         [Union [string_; number] ∅; exampleStructAC; number] /\
  Forall (fun m => isUnion m = false)
         (membersOrSelf
            (union structuralEquals
                   [Union [string_; number] ∅; exampleStructAC; number] None)).
Proof.
  assert (H : Forall (fun c => if c is Union members _
                   then Forall (fun m => isUnion m = false) members else True)
                [Union [string_; number] ∅; exampleStructAC; number])
    by (repeat constructor).
  split; [exact H|].
  exact (proj1 (union_keeps_unions_flat structuralEquals _ None H)).
Defined.

(** X6: [union] is idempotent on flat candidates compared by a symmetric
    equality: the union of the single candidate [union(candidates)] is
    [union(candidates)] itself. *)
Theorem union_of_union_is_same_node (equals : AST -> AST -> bool)
    (candidates : list AST) (annotations : option Annotations) :
  Forall (fun c => if c is Union members _
                   then Forall (fun m => isUnion m = false) members else True)
         candidates ->
  Forall (fun a => Forall (fun b => equals a b = equals b a)
                          (RA.flatMap membersOrSelf candidates))
         (RA.flatMap membersOrSelf candidates) ->
  union equals [union equals candidates annotations] annotations =
  union equals candidates annotations.
Proof.
  intros Hflat Hsym. apply flattened_candidates_not_unions in Hflat.
  destruct (uniq_FirstOccurrences equals (RA.flatMap membersOrSelf candidates))
    as (Hsub & Hdistinct & _).
  pose proof (sublist_Forall _ _ _ Hsub Hflat) as Huniq.
  pose proof (sublist_Forall _ _ _ Hsub Hsym) as Hsym'.
  unfold union at 2 3.
  destruct (RA.uniq equals (RA.flatMap membersOrSelf candidates))
    as [|m1 [|m2 ms]] eqn:E.
  - done.
  - inversion Huniq as [|? ? Hm1 _]; subst.
    by destruct m1; try discriminate Hm1.
  - set (u := m1 :: m2 :: ms) in *.
    assert (Hboth : StronglySorted
                      (fun a b => equals a b = false /\ equals b a = false) u).
    { eapply StronglySorted_impl_elem_of; [|exact Hdistinct].
      intros a b Ha Hb Hba. simpl in Hba. split; [|done].
      rewrite Forall_forall in Hsym'. specialize (Hsym' a Ha).
      rewrite Forall_forall in Hsym'.
      rewrite (Hsym' b); [done|].
      eapply sublist_Forall in Hsub; [|apply Forall_forall; intros ? H; exact H].
      rewrite Forall_forall in Hsub. by apply Hsub. }
    assert (Hsorted : StronglySorted
                        (fun earlier later => equals later earlier = false)
                        (sortByWeightDesc u)).
    { assert (Hrel : Symmetric
                       (fun a b : AST => equals a b = false /\ equals b a = false))
        by (by intros a b [? ?]).
      assert (Hperm : u ≡ₚ sortByWeightDesc u)
        by (symmetry; apply sortByWeightDesc_Permutation).
      pose proof (StronglySorted_symmetric_Permutation _ _ _ Hperm Hboth) as Hb.
      eapply StronglySorted_impl_elem_of; [|exact Hb].
      by intros a b _ _ [_ ?]. }
    assert (Hone : forall ms a, RA.flatMap membersOrSelf [Union ms a] = ms)
      by (intros; apply app_nil_r).
    unfold union. rewrite Hone.
    rewrite (uniq_distinct _ _ Hsorted).
    pose proof (sortByWeightDesc_Permutation u) as Hperm.
    destruct (sortByWeightDesc u) as [|s1 [|s2 ss]] eqn:Es.
    + apply Permutation_length in Hperm. done.
    + apply Permutation_length in Hperm. done.
    + rewrite <- Es. by rewrite sortByWeightDesc_in_order.
Qed.

Lemma union_of_union_is_same_node_witness :
  Forall (fun c => if c is Union members _
                   then Forall (fun m => isUnion m = false) members else True)
         [number; exampleStructAC; number] /\
  union structuralEquals
        [union structuralEquals [number; exampleStructAC; number] None] None =
  Union [exampleStructAC; number] ∅.
Proof.
  assert (H1 : Forall (fun c => if c is Union members _
                   then Forall (fun m => isUnion m = false) members else True)
                 [number; exampleStructAC; number])
    by (repeat constructor).
  assert (H2 : Forall (fun a => Forall (fun b => structuralEquals a b =
                                                 structuralEquals b a)
                          (RA.flatMap membersOrSelf
                                      [number; exampleStructAC; number]))
                 (RA.flatMap membersOrSelf [number; exampleStructAC; number]))
    by (repeat constructor).
  split; [exact H1|].
  rewrite (union_of_union_is_same_node structuralEquals _ None H1 H2).
  reflexivity.
Defined.

(** ** Building tuples *)

Lemma requiredFirst_snoc (es : list Element) (e : Element) :
  requiredFirst (es ++ [e]) <->
  requiredFirst es /\
  (existsb el_isOptional es && negb (el_isOptional e) = false).
Proof.
  unfold requiredFirst. rewrite StronglySorted_app. split.
  - intros (Hcross & Hes & _). split; [done|].
    destruct (existsb el_isOptional es) eqn:Hex; [|done].
    apply existsb_exists in Hex as (x & Hx & Hopt).
    rewrite (Hcross x e); [done|by apply list_elem_of_In|by left|done].
  - intros (Hes & Hno). split_and!; [|done|repeat constructor].
    intros x e' Hx He' Hopt. apply list_elem_of_singleton in He' as ->.
    destruct (el_isOptional e); [done|].
    rewrite andb_true_r in Hno.
    assert (existsb el_isOptional es = true); [|congruence].
    apply existsb_exists. exists x. split; [by apply list_elem_of_In|done].
Qed.

Lemma appendElements_Throw (es : list Element) (e : Exn) :
  fold_left (fun acc x => t' ← acc; appendElement t' x None) es (Throw e) =
  Throw e.
Proof. induction es as [|x es IH]; simpl; [done|apply IH]. Qed.

Lemma appendElements_spec (isReadonly0 : bool) (es0 es : list Element)
    (t : TupleNode) :
  requiredFirst es0 ->
  appendElements (mkTuple es0 None isReadonly0 ∅ false) es = Ok t <->
  requiredFirst (es0 ++ es) /\ t = mkTuple (es0 ++ es) None isReadonly0 ∅ false.
Proof.
  revert es0. induction es as [|e es IH]; intros es0 Hes0.
  { unfold appendElements. simpl. rewrite app_nil_r. split.
    - by intros [= <-].
    - by intros [_ ->]. }
  unfold appendElements. simpl. unfold appendElement at 2. simpl.
  destruct (existsb el_isOptional es0 && negb (el_isOptional e)) eqn:Hcheck.
  - rewrite appendElements_Throw. split; [done|]. intros [Hsorted _].
    change (es0 ++ e :: es) with (es0 ++ [e] ++ es) in Hsorted.
    rewrite app_assoc in Hsorted.
    apply StronglySorted_app_1_l, requiredFirst_snoc in Hsorted as [_ Hno].
    congruence.
  - change (es0 ++ e :: es) with (es0 ++ [e] ++ es). rewrite !app_assoc.
    apply (IH (es0 ++ [e])). by apply requiredFirst_snoc.
Qed.

(** X7: appending elements one after the other to the empty tuple succeeds
    exactly when no required element follows an optional one in the sequence,
    and the tuple built then has exactly these elements, in order, and no
    rest. *)
Theorem appendElements_succeeds_iff_required_first
    (isReadonly : bool) (es : list Element) (t : TupleNode) :
  appendElements (tuple [] None isReadonly None None) es = Ok t <->
  requiredFirst es /\ t = tuple es None isReadonly None None.
Proof. apply (appendElements_spec isReadonly [] es t). constructor. Qed.

(** X8: the tuple constructors keep the order of required and optional
    elements: on a tuple in which no required element follows an optional
    one, a successful [appendElement] or [appendRestElement] returns such a
    tuple again, which has a rest when the given tuple had one and at least as
    many elements. *)
Theorem append_keeps_required_first
    (t t' : TupleNode) (newElement : Element) (restElement : AST)
    (newAnnotations : option Annotations) :
  requiredFirst (elements t) ->
  appendElement t newElement newAnnotations = Ok t' \/
  appendRestElement t restElement newAnnotations = Ok t' ->
  requiredFirst (elements t') /\
  (is_Some (rest t) -> is_Some (rest t')) /\
  length (elements t) <= length (elements t').
Proof.
  intros Hwf [H|H].
  - unfold appendElement in H.
    destruct (existsb el_isOptional (elements t) &&
              negb (el_isOptional newElement)) eqn:Hcheck; [done|].
    destruct (rest t) as [r|] eqn:Hrest.
    + destruct (el_isOptional newElement); [done|].
      injection H as <-. simpl. by split_and!.
    + injection H as <-. simpl. split_and!.
      * by apply requiredFirst_snoc.
      * by intros [? ?].
      * rewrite length_app. lia.
  - unfold appendRestElement in H.
    destruct (rest t) as [r|] eqn:Hrest; [done|].
    injection H as <-. simpl. by split_and!.
Qed.

Lemma append_keeps_required_first_witness :
  requiredFirst [mkElement string_ false ∅; mkElement number true ∅] /\
  (appendElement
     (mkTuple [mkElement string_ false ∅; mkElement number true ∅] None true ∅ false)
     (mkElement symbol true ∅) None =
   Ok (mkTuple [mkElement string_ false ∅; mkElement number true ∅;
                mkElement symbol true ∅] None true ∅ false)) /\
  requiredFirst [mkElement string_ false ∅; mkElement number true ∅;
                 mkElement symbol true ∅].
Proof.
  assert (H1 : requiredFirst [mkElement string_ false ∅; mkElement number true ∅])
    by (repeat constructor; done).
  assert (H2 : appendElement
     (mkTuple [mkElement string_ false ∅; mkElement number true ∅] None true ∅ false)
     (mkElement symbol true ∅) None =
   Ok (mkTuple [mkElement string_ false ∅; mkElement number true ∅;
                mkElement symbol true ∅] None true ∅ false)) by reflexivity.
  split; [exact H1|]. split; [exact H2|].
  exact (proj1 (append_keeps_required_first
                  (mkTuple [mkElement string_ false ∅; mkElement number true ∅]
                           None true ∅ false)
                  _ _ never None H1 (or_introl H2))).
Defined.

(** X9: a rest element closes a tuple: after a successful
    [appendRestElement], another [appendRestElement] fails, appending an
    optional element fails, and every successful [appendElement] leaves the
    elements as they were and puts the type of the new element at the end of
    the rest. *)
Theorem rest_element_closes_tuple
    (t withRest : TupleNode) (restElement : AST)
    (newAnnotations : option Annotations) :
  appendRestElement t restElement newAnnotations = Ok withRest ->
  (forall another given,
     appendRestElement withRest another given =
     Throw (Error "A rest element cannot follow another rest element. ts(1265)")) /\
  (forall e given,
     el_isOptional e = true ->
     appendElement withRest e given =
     Throw (Error "An optional element cannot follow a rest element. ts(1266)")) /\
  (forall e given t',
     appendElement withRest e given = Ok t' ->
     el_isOptional e = false /\
     elements t' = elements t /\
     rest t' = Some (NonEmpty restElement [el_type e])).
Proof.
  unfold appendRestElement at 1.
  destruct (rest t) as [r|] eqn:Hrest; [done|]. intros [= <-].
  split_and!.
  - done.
  - intros e given He. unfold appendElement. simpl. rewrite He.
    by rewrite andb_false_r.
  - intros e given t'. unfold appendElement. simpl.
    destruct (existsb el_isOptional (elements t) && negb (el_isOptional e));
      [done|].
    destruct (el_isOptional e); [done|]. by intros [= <-].
Qed.

Lemma rest_element_closes_tuple_witness :
  appendRestElement (tuple [element string_ false None] None true None None)
                    number None =
    Ok (tuple [element string_ false None] (Some (NonEmpty number [])) true
              None None) /\
  appendElement
    (tuple [element string_ false None] (Some (NonEmpty number [])) true None None)
    (element symbol true None) None =
  Throw (Error "An optional element cannot follow a rest element. ts(1266)").
Proof.
  assert (H : appendRestElement
                (tuple [element string_ false None] None true None None)
                number None =
              Ok (tuple [element string_ false None] (Some (NonEmpty number []))
                        true None None)) by reflexivity.
  split; [exact H|].
  exact (proj1 (proj2 (rest_element_closes_tuple _ _ _ _ H))
               (element symbol true None) None eq_refl).
Defined.

(** ** More on [keyof] *)

Section KeyofErrors.
Variable equals : AST -> AST -> bool.

Let step (acc : result (list AST)) (member : AST) : result (list AST) :=
  out ← acc; ks ← keyof equals member; Ok (RA.intersection equals ks out).

Lemma keyof_loop_Throw (members : list AST) (e : Exn) :
  fold_left step members (Throw e) = Throw e.
Proof. induction members as [|m ms IH]; simpl; [done|apply IH]. Qed.

Lemma keyof_loop_Ok (members : list AST) (out0 : list AST) :
  Forall (fun m => isOk (keyof equals m) = true) members ->
  exists out, fold_left step members (Ok out0) = Ok out.
Proof.
  intros H. revert out0. induction H as [|m ms Hm _ IH]; intros out0; simpl.
  { by exists out0. }
  destruct (keyof equals m) as [ks|] eqn:E; [|done]. simpl. apply IH.
Qed.

Lemma keyof_union_first_failure (before after : list AST) (member : AST)
    (e : Exn) (annotations : Annotations) :
  Forall (fun m => isOk (keyof equals m) = true) before ->
  keyof equals member = Throw e ->
  keyof equals (Union (before ++ member :: after) annotations) = Throw e.
Proof.
  intros Hbefore Hmember. destruct before as [|b bs]; simpl.
  { rewrite Hmember. apply keyof_loop_Throw. }
  fold step. rewrite fold_left_app.
  apply Forall_cons in Hbefore as [Hb Hbs].
  destruct (keyof equals b) as [k0|] eqn:E; [|done].
  destruct (keyof_loop_Ok bs k0 Hbs) as [out ->].
  simpl. rewrite Hmember. simpl. apply keyof_loop_Throw.
Qed.
End KeyofErrors.

(** X10: [keyof] of a Union throws whenever [keyof] of a member throws, with
    the exception of the first such member; in particular it throws on every
    Union that has a string keyword, a literal or a tuple among its
    members. *)
Theorem keyof_union_throws_with_first_failing_member
    (equals : AST -> AST -> bool) (before after : list AST) (member : AST)
    (e : Exn) (annotations : Annotations) :
  Forall (fun m => isOk (keyof equals m) = true) before ->
  keyof equals member = Throw e ->
  keyof equals (Union (before ++ member :: after) annotations) = Throw e.
Proof. apply keyof_union_first_failure. Qed.

Lemma keyof_union_throws_with_first_failing_member_witness :
  Forall (fun m => isOk (keyof structuralEquals m) = true) [number; exampleStructAC] /\
  keyof structuralEquals string_ = Throw (Error "cannot `keyof` on this AST") /\
  keyof structuralEquals (Union [number; exampleStructAC; string_; symbol] ∅) =
    Throw (Error "cannot `keyof` on this AST").
Proof.
  assert (H1 : Forall (fun m => isOk (keyof structuralEquals m) = true)
                      [number; exampleStructAC]) by (by repeat constructor).
  assert (H2 : keyof structuralEquals string_ =
               Throw (Error "cannot `keyof` on this AST")) by reflexivity.
  split; [exact H1|]. split; [exact H2|].
  exact (keyof_union_throws_with_first_failing_member
           structuralEquals [number; exampleStructAC] [symbol] string_ _ ∅ H1 H2).
Defined.

Lemma record_outcome (key value : AST) (isReadonly : bool) :
  match List.filter (fun leaf => negb (isKeyKind leaf)) (keyLeaves key) with
  | [] =>
      record key value isReadonly =
      Ok (Struct
            (List.flat_map (fieldsOfLeaf value isReadonly) (keyLeaves key))
            (List.flat_map (indexSignaturesOfLeaf value isReadonly) (keyLeaves key))
            ∅ false)
  | leaf :: _ => record key value isReadonly = Throw (recordError leaf)
  end.
Proof.
  unfold record. rewrite go_spec.
  destruct (List.filter _ (keyLeaves key)) as [|leaf leaves]; [|done].
  simpl. unfold struct. simpl.
  rewrite (sortByCardinalityAsc_same_value _ value)
    by apply fieldsOfLeaf_value.
  rewrite (sortByCardinalityAsc_same_value _ value)
    by apply indexSignaturesOfLeaf_value.
  done.
Qed.

Lemma map_flat_map {A B C : Type} (g : B -> C) (f : A -> list B) (l : list A) :
  List.map g (List.flat_map f l) = List.flat_map (fun a => List.map g (f a)) l.
Proof.
  induction l as [|a l IH]; simpl; [done|]. by rewrite map_app, IH.
Qed.

Lemma flat_map_nil {A B : Type} (f : A -> list B) (l : list A) :
  Forall (fun a => f a = []) l -> List.flat_map f l = [].
Proof. induction 1 as [|a l Ha _ IH]; simpl; [done|]. by rewrite Ha, IH. Qed.

(** X11: [keyof] and [propertyKeys] give back the keys of a record: when the
    key of a successful [record] has no string, number or symbol keyword among
    its leaves, the property keys of the Struct are the string literals, number
    literals and unique symbols of the key, in order, and [keyof] of the Struct
    returns them as literal and unique-symbol nodes without annotations. *)
Theorem keyof_record_returns_literal_keys (equals : AST -> AST -> bool)
    (key value : AST) (isReadonly : bool) (built : AST) :
  record key value isReadonly = Ok built ->
  Forall (fun leaf => indexSignaturesOfLeaf value isReadonly leaf = [])
         (keyLeaves key) ->
  propertyKeys built = Ok (List.flat_map keysOfLeaf (keyLeaves key)) /\
  keyof equals built =
    Ok (List.map getPropertyKeyAST (List.flat_map keysOfLeaf (keyLeaves key))).
Proof.
  intros Hrecord Hnosig. pose proof (record_outcome key value isReadonly) as H.
  destruct (List.filter _ (keyLeaves key)); [|congruence].
  rewrite H in Hrecord. injection Hrecord as <-.
  rewrite (flat_map_nil _ _ Hnosig).
  assert (Hkeys : List.map fd_key
                    (List.flat_map (fieldsOfLeaf value isReadonly) (keyLeaves key)) =
                  List.flat_map keysOfLeaf (keyLeaves key)).
  { rewrite map_flat_map. apply flat_map_ext. intros leaf.
    by destruct leaf as [| [] ? | | | | | | | | | | | | | | | | | |]. }
  split; simpl; [by rewrite Hkeys|].
  rewrite app_nil_r, <- Hkeys, map_map. do 2 f_equal.
  apply forallb_filter_id, forallb_forall. intros f _.
  by destruct (typeofKey (fd_key f)).
Qed.

Lemma keyof_record_returns_literal_keys_witness :
  let key := Union [literalType (LString "x") (Some {[inl "title" := VNull]});
                    never; uniqueSymbol 1%positive None;
                    literalType (LNumber 2%Z) None] ∅ in
  keyof structuralEquals
        (Struct [field (PKString "x") number false true None;
                 field (PKSymbol 1%positive) number false true None;
                 field (PKNumber 2%Z) number false true None] [] ∅ false) =
  Ok [literalType (LString "x") None; uniqueSymbol 1%positive None;
      literalType (LNumber 2%Z) None] /\
  record key number true =
  Ok (Struct [field (PKString "x") number false true None;
              field (PKSymbol 1%positive) number false true None;
              field (PKNumber 2%Z) number false true None] [] ∅ false).
Proof.
  intros key.
  assert (H1 : record key number true =
               Ok (Struct [field (PKString "x") number false true None;
                           field (PKSymbol 1%positive) number false true None;
                           field (PKNumber 2%Z) number false true None]
                          [] ∅ false)) by reflexivity.
  assert (H2 : Forall (fun leaf => indexSignaturesOfLeaf number true leaf = [])
                      (keyLeaves key)) by (by repeat constructor).
  split; [|exact H1].
  exact (proj2 (keyof_record_returns_literal_keys structuralEquals
                  key number true _ H1 H2)).
Defined.

(** ** [propertyKeys] and [getFields] *)

Lemma keys_intersection_elem_of (that self : list PropertyKey) k :
  k ∈ RA.intersection keyEquals that self <-> k ∈ self /\ k ∈ that.
Proof.
  unfold RA.intersection, keyEquals.
  rewrite list_elem_of_In, filter_In, <- list_elem_of_In, existsb_exists.
  split.
  - intros (Hk & k' & Hk' & Heq). apply bool_decide_eq_true in Heq as ->.
    split; [done|by apply list_elem_of_In].
  - intros (Hk & Hk'). split; [done|]. exists k.
    split; [by apply list_elem_of_In|by apply bool_decide_eq_true].
Qed.

Lemma keys_intersections_spec (kss : list (list PropertyKey))
    (out0 : list PropertyKey) :
  let out := fold_left (fun out ks => RA.intersection keyEquals ks out) kss out0 in
  sublist out out0 /\
  forall k, k ∈ out <-> k ∈ out0 /\ Forall (fun ks => k ∈ ks) kss.
Proof.
  revert out0. induction kss as [|ks kss IH]; intros out0; simpl.
  { split; [done|]. intros k. split; [by split|by intros [? _]]. }
  destruct (IH (RA.intersection keyEquals ks out0)) as [Hsub Hiff].
  split.
  - etrans; [exact Hsub|]. unfold RA.intersection.
    clear. induction out0 as [|a out0 IH]; simpl; [done|].
    destruct (existsb _ ks); by constructor.
  - intros k. rewrite Hiff, keys_intersection_elem_of, Forall_cons. tauto.
Qed.

Lemma propertyKeys_union_loop (members : list AST)
    (kss : list (list PropertyKey)) (out0 : list PropertyKey) :
  Forall2 (fun member ks => propertyKeys member = Ok ks) members kss ->
  fold_left
    (fun acc member =>
       out ← acc; ks ← propertyKeys member;
       Ok (RA.intersection keyEquals ks out))
    members (Ok out0) =
  Ok (fold_left (fun out ks => RA.intersection keyEquals ks out) kss out0).
Proof.
  intros H. revert out0.
  induction H as [|member ks members kss Hk _ IH]; intros out0; simpl; [done|].
  rewrite Hk. simpl. apply IH.
Qed.

(** X12: the property keys of a Union whose members all have property keys
    are the property keys of its first member that are property keys of every
    other member, in the order of the first member; those of a Union without
    members are not defined: reading the tag of the first member throws. *)
Theorem propertyKeys_of_union_are_common_keys
    (member0 : AST) (others : list AST)
    (keys0 : list PropertyKey) (keys : list (list PropertyKey))
    (annotations : Annotations) :
  propertyKeys member0 = Ok keys0 ->
  Forall2 (fun member ks => propertyKeys member = Ok ks) others keys ->
  (exists out,
     propertyKeys (Union (member0 :: others) annotations) = Ok out /\
     sublist out keys0 /\
     forall k, k ∈ out <-> k ∈ keys0 /\ Forall (fun ks => k ∈ ks) keys) /\
  propertyKeys (Union [] annotations) =
    Throw (TypeError "Cannot read properties of undefined (reading '_tag')").
Proof.
  intros H0 Hothers. split; [|done]. eexists. simpl. rewrite H0.
  split; [by apply propertyKeys_union_loop|]. apply keys_intersections_spec.
Qed.

Lemma propertyKeys_of_union_are_common_keys_witness :
  propertyKeys exampleStructAC = Ok [PKString "a"; PKString "c"] /\
  Forall2 (fun member ks => propertyKeys member = Ok ks)
          [struct [exampleFieldC; exampleFieldB] [] None None]
          [[PKString "b"; PKString "c"]] /\
  propertyKeys
    (Union [exampleStructAC; struct [exampleFieldC; exampleFieldB] [] None None] ∅) =
  Ok [PKString "c"].
Proof.
  assert (H0 : propertyKeys exampleStructAC = Ok [PKString "a"; PKString "c"])
    by reflexivity.
  assert (H1 : Forall2 (fun member ks => propertyKeys member = Ok ks)
                 [struct [exampleFieldC; exampleFieldB] [] None None]
                 [[PKString "b"; PKString "c"]]) by (by repeat constructor).
  split; [exact H0|]. split; [exact H1|].
  destruct (proj1 (propertyKeys_of_union_are_common_keys _ _ _ _ ∅ H0 H1))
    as (out & Hout & _).
  rewrite Hout. f_equal. by vm_compute in Hout; injection Hout as <-.
Defined.

Section FieldsFacts.
Variable equals : AST -> AST -> bool.

Lemma getFields_members (members : list AST) (fss : list (list Field)) :
  Forall2 (fun member fs => getFields equals member = Ok fs) members fss ->
  foldr (fun member more =>
           fs ← getFields equals member; others ← more; Ok (fs ++ others))
        (Ok []) members = Ok (concat fss).
Proof.
  induction 1 as [|member fs members fss Hfs _ IH]; simpl; [done|].
  rewrite Hfs. simpl. by rewrite IH.
Qed.

Lemma getFields_union_eq (members : list AST) (fss : list (list Field))
    (keys : list PropertyKey) (annotations : Annotations) :
  Forall2 (fun member fs => getFields equals member = Ok fs) members fss ->
  propertyKeys (Union members annotations) = Ok keys ->
  getFields equals (Union members annotations) =
  Ok (List.map (fieldOfUnion equals (concat fss)) keys).
Proof.
  intros Hfields Hkeys.
  change (getFields equals (Union members annotations)) with
    (fields ← foldr (fun member more =>
                       fs ← getFields equals member; others ← more;
                       Ok (fs ++ others))
                    (Ok []) members;
     keys ← propertyKeys (Union members annotations);
     Ok (List.map (fieldOfUnion equals fields) keys)).
  rewrite Hkeys, (getFields_members members fss Hfields).
  reflexivity.
Qed.
End FieldsFacts.

(** X13: the fields of a Union whose members all have fields: there is one
    field for each property key of the Union, in that order; it is optional
    exactly when a field of that key of a member is optional, read-only
    exactly when one is read-only, its value is the union of the values of
    the fields of that key of all the members, in the order of the members,
    and it has no annotations. *)
Theorem getFields_of_union_merges_member_fields (equals : AST -> AST -> bool)
    (members : list AST) (fss : list (list Field)) (keys : list PropertyKey)
    (annotations : Annotations) :
  Forall2 (fun member fs => getFields equals member = Ok fs) members fss ->
  propertyKeys (Union members annotations) = Ok keys ->
  exists fields,
    getFields equals (Union members annotations) = Ok fields /\
    List.map fd_key fields = keys /\
    Forall
      (fun f =>
         let sameKey :=
           List.filter (fun g => bool_decide (fd_key g = fd_key f)) (concat fss) in
         (fd_isOptional f = true <->
          Exists (fun g => fd_isOptional g = true) sameKey) /\
         (fd_isReadonly f = true <->
          Exists (fun g => fd_isReadonly g = true) sameKey) /\
         fd_value f = union equals (List.map fd_value sameKey) None /\
         fd_annotations f = ∅)
      fields.
Proof.
  intros Hfields Hkeys. eexists.
  split; [by apply getFields_union_eq|].
  split.
  { rewrite map_map. simpl. apply map_id. }
  apply Forall_forall. intros f Hf.
  apply list_elem_of_In, in_map_iff in Hf as (k & <- & _). simpl.
  split_and!; try done.
  - rewrite existsb_exists, Exists_exists.
    by setoid_rewrite list_elem_of_In.
  - rewrite existsb_exists, Exists_exists.
    by setoid_rewrite list_elem_of_In.
Qed.

Lemma getFields_of_union_merges_member_fields_witness :
  let optionalC := field (PKString "c") number true false None in
  Forall2 (fun member fs => getFields structuralEquals member = Ok fs)
          [exampleStructAC; struct [optionalC; exampleFieldB] [] None None]
          [[exampleFieldA; exampleFieldC]; [exampleFieldB; optionalC]] /\
  getFields structuralEquals
    (Union [exampleStructAC; struct [optionalC; exampleFieldB] [] None None] ∅) =
  Ok [field (PKString "c") (Union [string_; number] ∅) true true None].
Proof.
  intros optionalC.
  assert (H1 : Forall2 (fun member fs => getFields structuralEquals member = Ok fs)
                 [exampleStructAC; struct [optionalC; exampleFieldB] [] None None]
                 [[exampleFieldA; exampleFieldC]; [exampleFieldB; optionalC]])
    by (by repeat constructor).
  assert (H2 : propertyKeys
                 (Union [exampleStructAC;
                         struct [optionalC; exampleFieldB] [] None None] ∅) =
               Ok [PKString "c"]) by reflexivity.
  split; [exact H1|].
  destruct (getFields_of_union_merges_member_fields structuralEquals
              _ _ _ ∅ H1 H2) as (fields & Hfields & _).
  rewrite Hfields. f_equal. by vm_compute in Hfields; injection Hfields as <-.
Defined.

Lemma filter_none {A : Type} (p : A -> bool) (l : list A) :
  Forall (fun a => p a = false) l -> List.filter p l = [].
Proof. induction 1 as [|a l Ha _ IH]; simpl; [done|]. by rewrite Ha. Qed.

Lemma tuples_propertyKeys (nodes : list TupleNode) :
  Forall2 (fun member ks => propertyKeys member = Ok ks)
          (List.map Tuple nodes)
          (List.map (fun n => imap (fun i _ => PKString (pretty i)) (elements n))
                    nodes).
Proof. induction nodes; simpl; by constructor. Qed.

Lemma tuples_getFields (equals : AST -> AST -> bool) (nodes : list TupleNode) :
  Forall2 (fun member fs => getFields equals member = Ok fs)
          (List.map Tuple nodes)
          (List.map
             (fun n =>
                imap (fun i e =>
                        field (PKNumber (Z.of_nat i)) (el_type e)
                              (el_isOptional e) (isReadonly n) None)
                     (elements n))
             nodes).
Proof. induction nodes; simpl; by constructor. Qed.

Lemma imap_index_only {A B : Type} (g : nat -> B) (l : list A) (k : nat) :
  imap (fun i _ => g (k + i)) l = List.map g (seq k (length l)).
Proof.
  revert k. induction l as [|x l IH]; intros k; simpl; [done|].
  rewrite Nat.add_0_r. f_equal. rewrite <- IH.
  apply imap_ext. intros i y _. simpl. f_equal. lia.
Qed.

Lemma tuple_positionKeys (es : list Element) :
  imap (fun i (_ : Element) => PKString (pretty i)) es = positionKeys (length es).
Proof. apply (imap_index_only (fun i => PKString (pretty i)) es 0). Qed.

Lemma elem_of_positionKeys (i n : nat) :
  PKString (pretty i) ∈ positionKeys n <-> i < n.
Proof.
  unfold positionKeys. rewrite list_elem_of_In, in_map_iff. split.
  - intros (j & Heq & Hj). injection Heq as Heq.
    apply (inj pretty) in Heq as ->. apply in_seq in Hj. lia.
  - intros Hi. exists i. split; [done|]. apply in_seq. lia.
Qed.

Lemma positionKeys_S (n : nat) :
  positionKeys (S n) = positionKeys n ++ [PKString (pretty n)].
Proof. unfold positionKeys. by rewrite seq_S, map_app. Qed.

Lemma intersection_positionKeys (m n : nat) :
  RA.intersection keyEquals (positionKeys m) (positionKeys n) =
  positionKeys (Nat.min n m).
Proof.
  induction n as [|n IH]; [done|].
  rewrite positionKeys_S. unfold RA.intersection in *.
  rewrite List.filter_app, IH. cbn [List.filter].
  destruct (existsb (fun b => keyEquals (PKString (pretty n)) b) (positionKeys m))
    eqn:Hex.
  - apply existsb_exists in Hex as (k & Hk & Heq).
    apply bool_decide_eq_true in Heq as <-.
    apply list_elem_of_In, elem_of_positionKeys in Hk.
    rewrite (Nat.min_l (S n) m), (Nat.min_l n m) by lia.
    by rewrite positionKeys_S.
  - rewrite app_nil_r. f_equal.
    destruct (decide (n < m)) as [Hlt|Hge]; [|lia].
    apply elem_of_positionKeys, list_elem_of_In in Hlt.
    assert (existsb (fun b => keyEquals (PKString (pretty n)) b) (positionKeys m)
            = true); [|congruence].
    apply existsb_exists. eexists. split; [exact Hlt|].
    by apply bool_decide_eq_true.
Qed.

Lemma intersections_positionKeys (lengths : list nat) (n : nat) :
  fold_left (fun out ks => RA.intersection keyEquals ks out)
            (List.map positionKeys lengths) (positionKeys n) =
  positionKeys (fold_left Nat.min lengths n).
Proof.
  revert n. induction lengths as [|m ms IH]; intros n; simpl; [done|].
  by rewrite intersection_positionKeys, IH.
Qed.

(** X14: [propertyKeys] names the positions of a tuple by strings, and
    [getFields] by numbers; so the property keys of a Union of tuples are the
    positions that all the tuples have, and its fields, one for each of these
    positions, in order, are required, not read-only fields of value [never]
    without annotations: no field of a member has the key of a position. *)
Theorem getFields_of_union_of_tuples_are_never (equals : AST -> AST -> bool)
    (node0 : TupleNode) (nodes : list TupleNode) (annotations : Annotations) :
  let common :=
    fold_left Nat.min (List.map (fun n => length (elements n)) nodes)
              (length (elements node0)) in
  propertyKeys (Union (List.map Tuple (node0 :: nodes)) annotations) =
    Ok (positionKeys common) /\
  getFields equals (Union (List.map Tuple (node0 :: nodes)) annotations) =
    Ok (List.map
          (fun i => mkField (PKString (pretty i)) never false false ∅)
          (seq 0 common)).
Proof.
  cbv zeta.
  assert (Hprop : propertyKeys (Union (List.map Tuple (node0 :: nodes)) annotations)
                  = Ok (positionKeys
                          (fold_left Nat.min
                             (List.map (fun n => length (elements n)) nodes)
                             (length (elements node0))))).
  { simpl. rewrite (propertyKeys_union_loop _ _ _ (tuples_propertyKeys nodes)).
    rewrite tuple_positionKeys. f_equal.
    rewrite <- intersections_positionKeys. f_equal.
    rewrite map_map. apply map_ext. intros n. apply tuple_positionKeys. }
  split; [exact Hprop|].
  rewrite (getFields_union_eq equals _ _ _ _
             (tuples_getFields equals (node0 :: nodes)) Hprop).
  f_equal. unfold positionKeys. rewrite map_map. apply map_ext. intros i.
  unfold fieldOfUnion. rewrite filter_none; [done|].
  apply Forall_concat, Forall_forall. intros fs Hfs.
  apply list_elem_of_In, in_map_iff in Hfs as (n & <- & _).
  apply Forall_forall. intros g Hg.
  by apply elem_of_lookup_imap in Hg as (j & e & -> & _).
Qed.

(** ** [pick] and [omit] *)

Lemma filter_partition_Permutation {A : Type} (p : A -> bool) (l : list A) :
  List.filter p l ++ List.filter (fun a => negb (p a)) l ≡ₚ l.
Proof.
  induction l as [|a l IH]; simpl; [done|].
  destruct (p a); simpl.
  - by rewrite IH.
  - rewrite <- Permutation_middle. by rewrite IH.
Qed.

Lemma includes_elem_of (keys : list PropertyKey) (key : PropertyKey) :
  includes keys key = true <-> key ∈ keys.
Proof.
  unfold includes. rewrite existsb_exists. split.
  - intros (k & Hk & Heq). apply bool_decide_eq_true in Heq as <-.
    by apply list_elem_of_In.
  - intros Hk. exists key. split; [by apply list_elem_of_In|].
    by apply bool_decide_eq_true.
Qed.

(** X15: [pick] and [omit] split the fields of a node that has fields: the
    Struct of [pick] stores the fields whose key is among the given keys, the
    Struct of [omit] stores the others, together they store the fields of the
    node, each once; both Structs have no index signatures, no annotations and
    [allowUnexpected] false, and store their fields sorted by cardinality. *)
Theorem pick_and_omit_split_the_fields (equals : AST -> AST -> bool)
    (ast : AST) (keys : list PropertyKey) (fields : list Field) :
  getFields equals ast = Ok fields ->
  exists picked omitted,
    pick equals ast keys = Ok (Struct picked [] ∅ false) /\
    omit equals ast keys = Ok (Struct omitted [] ∅ false) /\
    picked ++ omitted ≡ₚ fields /\
    Forall (fun f => fd_key f ∈ keys) picked /\
    Forall (fun f => fd_key f ∉ keys) omitted /\
    StronglySorted byCardinality picked /\
    StronglySorted byCardinality omitted.
Proof.
  intros Hfields. unfold pick, omit. rewrite Hfields. simpl.
  eexists _, _. split; [done|]. split; [done|].
  split_and!.
  - rewrite !sortByCardinalityAsc_Permutation. apply filter_partition_Permutation.
  - eapply Permutation_Forall;
      [symmetry; apply sortByCardinalityAsc_Permutation|].
    apply Forall_forall. intros f Hf.
    apply list_elem_of_In, filter_In in Hf as [_ Hf].
    by apply includes_elem_of.
  - eapply Permutation_Forall;
      [symmetry; apply sortByCardinalityAsc_Permutation|].
    apply Forall_forall. intros f Hf.
    apply list_elem_of_In, filter_In in Hf as [_ Hf].
    rewrite <- includes_elem_of. by destruct (includes keys (fd_key f)).
  - apply sortByCardinalityAsc_sorted.
  - apply sortByCardinalityAsc_sorted.
Qed.

Lemma pick_and_omit_split_the_fields_witness :
  getFields structuralEquals exampleStructAC = Ok [exampleFieldA; exampleFieldC] /\
  pick structuralEquals exampleStructAC [PKString "c"; PKString "z"] =
    Ok (Struct [exampleFieldC] [] ∅ false) /\
  omit structuralEquals exampleStructAC [PKString "c"; PKString "z"] =
    Ok (Struct [exampleFieldA] [] ∅ false).
Proof.
  assert (H : getFields structuralEquals exampleStructAC =
              Ok [exampleFieldA; exampleFieldC]) by reflexivity.
  split; [exact H|].
  destruct (pick_and_omit_split_the_fields structuralEquals exampleStructAC
              [PKString "c"; PKString "z"] _ H)
    as (picked & omitted & Hpick & Homit & _).
  split.
  - rewrite Hpick. by vm_compute in Hpick; injection Hpick as <-.
  - rewrite Homit. by vm_compute in Homit; injection Homit as <-.
Defined.

Lemma filter_filter_andb {A : Type} (p q : A -> bool) (l : list A) :
  List.filter p (List.filter q l) = List.filter (fun a => q a && p a) l.
Proof.
  induction l as [|a l IH]; simpl; [done|].
  destruct (q a); simpl; [|done]. destruct (p a); by rewrite IH.
Qed.

Lemma includes_filter (keys keys' : list PropertyKey) (key : PropertyKey) :
  includes (List.filter (includes keys') keys) key =
  includes keys key && includes keys' key.
Proof.
  apply eq_true_iff_eq. rewrite andb_true_iff, !includes_elem_of.
  rewrite list_elem_of_In, filter_In, <- list_elem_of_In.
  by rewrite includes_elem_of.
Qed.

Lemma includes_app (keys keys' : list PropertyKey) (key : PropertyKey) :
  includes (keys ++ keys') key = includes keys key || includes keys' key.
Proof. apply existsb_app. Qed.

(** X16: [pick] and [omit] compose: picking from a picked Struct is picking
    the keys that are in both lists, omitting from an omitted Struct is
    omitting the keys of both lists, and omitting from a picked Struct the
    keys that were picked leaves the empty Struct. *)
Theorem pick_and_omit_compose (equals : AST -> AST -> bool)
    (ast picked omitted : AST) (keys keys' : list PropertyKey) :
  pick equals ast keys = Ok picked ->
  omit equals ast keys = Ok omitted ->
  pick equals picked keys' =
    pick equals ast (List.filter (includes keys') keys) /\
  omit equals omitted keys' = omit equals ast (keys ++ keys') /\
  omit equals picked keys = Ok (Struct [] [] ∅ false).
Proof.
  unfold pick, omit.
  destruct (getFields equals ast) as [fields|]; [|done]. simpl.
  intros [= <-] [= <-]. simpl. unfold struct. simpl.
  split_and!; do 2 f_equal.
  - rewrite sortByCardinalityAsc_filter, sortByCardinalityAsc_idempotent.
    rewrite filter_filter_andb. f_equal. apply filter_ext.
    intros f. by rewrite includes_filter.
  - rewrite sortByCardinalityAsc_filter, sortByCardinalityAsc_idempotent.
    rewrite filter_filter_andb. f_equal. apply filter_ext.
    intros f. rewrite includes_app. by destruct (includes keys _), (includes keys' _).
  - rewrite sortByCardinalityAsc_filter, filter_filter_andb.
    rewrite filter_none; [done|].
    apply Forall_forall. intros f _. by destruct (includes keys (fd_key f)).
Qed.

Lemma pick_and_omit_compose_witness :
  pick structuralEquals exampleStructAC [PKString "c"; PKString "a"] =
    Ok exampleStructAC /\
  omit structuralEquals exampleStructAC [PKString "c"; PKString "a"] =
    Ok (Struct [] [] ∅ false) /\
  pick structuralEquals exampleStructAC [PKString "a"] =
    pick structuralEquals exampleStructAC
         (List.filter (includes [PKString "a"]) [PKString "c"; PKString "a"]).
Proof.
  assert (H1 : pick structuralEquals exampleStructAC [PKString "c"; PKString "a"] =
               Ok exampleStructAC) by reflexivity.
  assert (H2 : omit structuralEquals exampleStructAC [PKString "c"; PKString "a"] =
               Ok (Struct [] [] ∅ false)) by reflexivity.
  split; [exact H1|]. split; [exact H2|].
  exact (proj1 (pick_and_omit_compose structuralEquals _ _ _
                  [PKString "c"; PKString "a"] [PKString "a"] H1 H2)).
Defined.

(** ** Nodes without fields *)

Lemma Forall_isOk_Forall2 {A B : Type} (f : A -> result B) (l : list A) :
  Forall (fun a => isOk (f a) = true) l ->
  exists bs, Forall2 (fun a b => f a = Ok b) l bs.
Proof.
  induction 1 as [|a l Ha _ [bs IH]]; [by exists []|].
  destruct (f a) as [b|] eqn:E; [|done]. exists (b :: bs). by constructor.
Qed.

(** X17: [propertyKeys] does not look through a Refinement, whereas
    [getFields] does: the property keys of a Refinement are empty whatever
    the fields of the refined node. So a Union with a Refinement, or any other
    member without property keys, among members that all have property keys
    and fields, has no property keys and no fields. *)
Theorem union_with_keyless_member_has_no_fields (equals : AST -> AST -> bool)
    (members : list AST) (annotations : Annotations) :
  Forall (fun m => isOk (propertyKeys m) = true) members ->
  Forall (fun m => isOk (getFields equals m) = true) members ->
  Exists (fun m => propertyKeys m = Ok []) members ->
  propertyKeys (Union members annotations) = Ok [] /\
  getFields equals (Union members annotations) = Ok [] /\
  (forall from refinement meta given,
     propertyKeys (Refinement from refinement meta given) = Ok [] /\
     getFields equals (Refinement from refinement meta given) =
       getFields equals from).
Proof.
  intros Hkeys Hfields Hkeyless.
  assert (Hprop : propertyKeys (Union members annotations) = Ok []).
  { destruct members as [|m0 others]; [by apply Exists_nil in Hkeyless|].
    apply Forall_cons in Hkeys as [H0 Hothers].
    destruct (propertyKeys m0) as [k0|] eqn:E0; [|done].
    destruct (Forall_isOk_Forall2 _ _ Hothers) as [kss Hkss].
    simpl. rewrite E0, (propertyKeys_union_loop _ _ _ Hkss).
    destruct (keys_intersections_spec kss k0) as [_ Hmem].
    destruct (fold_left _ kss k0) as [|k out] eqn:Eout; [done|].
    exfalso. assert (Hk : k ∈ k :: out) by (by left).
    apply Hmem in Hk as [Hk0 Hkrest].
    apply Exists_cons in Hkeyless as [Hm0|Hex].
    - rewrite E0 in Hm0. injection Hm0 as ->. inversion Hk0.
    - clear -Hkss Hex Hkrest.
      induction Hkss as [|m ks ms kss Hm _ IH]; [by apply Exists_nil in Hex|].
      apply Forall_cons in Hkrest as [Hk Hkrest].
      apply Exists_cons in Hex as [Hm'|Hex]; [|by apply IH].
      rewrite Hm in Hm'. injection Hm' as ->. inversion Hk. }
  split; [done|]. split; [|done].
  destruct (Forall_isOk_Forall2 _ _ Hfields) as [fss Hfss].
  by rewrite (getFields_union_eq equals _ _ _ _ Hfss Hprop).
Qed.

Lemma union_with_keyless_member_has_no_fields_witness :
  let refined := refinement exampleStructAC (fun _ => true) VNull None in
  getFields structuralEquals refined = Ok [exampleFieldA; exampleFieldC] /\
  getFields structuralEquals (Union [exampleStructAC; refined] ∅) = Ok [].
Proof.
  intros refined.
  assert (H1 : Forall (fun m => isOk (propertyKeys m) = true)
                      [exampleStructAC; refined]) by (by repeat constructor).
  assert (H2 : Forall (fun m => isOk (getFields structuralEquals m) = true)
                      [exampleStructAC; refined]) by (by repeat constructor).
  assert (H3 : Exists (fun m => propertyKeys m = Ok [])
                      [exampleStructAC; refined])
    by (right; left; reflexivity).
  split; [reflexivity|].
  exact (proj1 (proj2 (union_with_keyless_member_has_no_fields
                         structuralEquals _ ∅ H1 H2 H3))).
Defined.

(** ** The combinators of [ParseResult] *)

Section Combinators.
Context {A B C : Type}.

Lemma outcome_map (self : ParseResult.ParseResult A) (f : A -> B) :
  ParseResult.outcome (ParseResult.map self f) =
  match ParseResult.outcome self with
  | ParseResult.Left e => ParseResult.Left e
  | ParseResult.Right a => ParseResult.Right (f a)
  end.
Proof. by destruct self as [[]|]. Qed.

Lemma outcome_flatMap (self : ParseResult.ParseResult A)
    (k : A -> ParseResult.ParseResult B) :
  ParseResult.outcome (ParseResult.flatMap self k) =
  match ParseResult.outcome self with
  | ParseResult.Left e => ParseResult.Left e
  | ParseResult.Right a => ParseResult.outcome (k a)
  end.
Proof. by destruct self as [[]|]. Qed.

Lemma outcome_mapLeft (self : ParseResult.ParseResult A)
    (h : ParseResult.ParseError -> ParseResult.ParseError) :
  ParseResult.outcome (ParseResult.mapLeft self h) =
  match ParseResult.outcome self with
  | ParseResult.Left e => ParseResult.Left (h e)
  | ParseResult.Right a => ParseResult.Right a
  end.
Proof. by destruct self as [[]|]. Qed.

Lemma outcome_bimap (self : ParseResult.ParseResult A)
    (h : ParseResult.ParseError -> ParseResult.ParseError) (f : A -> B) :
  ParseResult.outcome (ParseResult.bimap self h f) =
  match ParseResult.outcome self with
  | ParseResult.Left e => ParseResult.Left (h e)
  | ParseResult.Right a => ParseResult.Right (f a)
  end.
Proof. by destruct self as [[]|]. Qed.

Lemma outcome_orElse (self : ParseResult.ParseResult A)
    (r : ParseResult.ParseError -> ParseResult.ParseResult A) :
  ParseResult.outcome (ParseResult.orElse self r) =
  match ParseResult.outcome self with
  | ParseResult.Left e => ParseResult.outcome (r e)
  | ParseResult.Right a => ParseResult.Right a
  end.
Proof. by destruct self as [[]|]. Qed.
End Combinators.

(** X19: the combinators of results act on the outcome alone, whether the
    result is an Either already, which they handle themselves, or an effect
    that is run later: [map] and [flatMap] pass a failure on unchanged and
    apply the function to a success, [mapLeft] maps the error of a failure and
    passes a success on, [bimap] does both, [orElse] replaces a failure by the
    result of the handler and passes a success on; and [eitherOrUndefined]
    returns the outcome when it returns an Either. *)
Theorem combinators_act_on_outcome {A B : Type}
    (self : ParseResult.ParseResult A) (f : A -> B)
    (k : A -> ParseResult.ParseResult B)
    (h : ParseResult.ParseError -> ParseResult.ParseError)
    (r : ParseResult.ParseError -> ParseResult.ParseResult A) :
  ParseResult.outcome (ParseResult.map self f) =
    match ParseResult.outcome self with
    | ParseResult.Left e => ParseResult.Left e
    | ParseResult.Right a => ParseResult.Right (f a)
    end /\
  ParseResult.outcome (ParseResult.flatMap self k) =
    match ParseResult.outcome self with
    | ParseResult.Left e => ParseResult.Left e
    | ParseResult.Right a => ParseResult.outcome (k a)
    end /\
  ParseResult.outcome (ParseResult.mapLeft self h) =
    match ParseResult.outcome self with
    | ParseResult.Left e => ParseResult.Left (h e)
    | ParseResult.Right a => ParseResult.Right a
    end /\
  ParseResult.outcome (ParseResult.bimap self h f) =
    match ParseResult.outcome self with
    | ParseResult.Left e => ParseResult.Left (h e)
    | ParseResult.Right a => ParseResult.Right (f a)
    end /\
  ParseResult.outcome (ParseResult.orElse self r) =
    match ParseResult.outcome self with
    | ParseResult.Left e => ParseResult.outcome (r e)
    | ParseResult.Right a => ParseResult.Right a
    end /\
  match ParseResult.eitherOrUndefined self with
  | Some either => ParseResult.outcome self = either
  | None => True
  end.
Proof.
  split_and!;
    [apply outcome_map|apply outcome_flatMap|apply outcome_mapLeft
    |apply outcome_bimap|apply outcome_orElse|by destruct self].
Qed.

(** X20: the laws of the combinators: [flatMap] of a success is the
    continuation applied to the value, and [flatMap] of a failure is that
    failure, the continuation not being called; [flatMap] with [success] and
    [orElse] with [fail] do not change the outcome; [flatMap] is associative;
    [map] after [map] is [map] of the composition; [bimap] is [mapLeft]
    followed by [map]; and [orElse] of a failure is the handler applied to the
    error. *)
Theorem combinators_laws {A B C : Type}
    (self : ParseResult.ParseResult A) (a : A) (error : ParseResult.ParseError)
    (k : A -> ParseResult.ParseResult B) (k' : B -> ParseResult.ParseResult C)
    (f : A -> B) (g : B -> C)
    (h : ParseResult.ParseError -> ParseResult.ParseError)
    (r : ParseResult.ParseError -> ParseResult.ParseResult A) :
  ParseResult.flatMap (ParseResult.success a) k = k a /\
  ParseResult.flatMap (ParseResult.fail error) k = ParseResult.fail error /\
  ParseResult.outcome (ParseResult.flatMap self ParseResult.success) =
    ParseResult.outcome self /\
  ParseResult.outcome (ParseResult.orElse self ParseResult.fail) =
    ParseResult.outcome self /\
  ParseResult.outcome (ParseResult.flatMap (ParseResult.flatMap self k) k') =
    ParseResult.outcome
      (ParseResult.flatMap self (fun x => ParseResult.flatMap (k x) k')) /\
  ParseResult.outcome (ParseResult.map (ParseResult.map self f) g) =
    ParseResult.outcome (ParseResult.map self (fun x => g (f x))) /\
  ParseResult.outcome (ParseResult.bimap self h f) =
    ParseResult.outcome (ParseResult.map (ParseResult.mapLeft self h) f) /\
  ParseResult.orElse (ParseResult.fail error) r = r error /\
  ParseResult.orElse (ParseResult.success a) r = ParseResult.success a.
Proof.
  split_and!; try done.
  - rewrite outcome_flatMap. by destruct (ParseResult.outcome self).
  - rewrite outcome_orElse. by destruct (ParseResult.outcome self).
  - rewrite !outcome_flatMap.
    destruct (ParseResult.outcome self); [done|]. by rewrite outcome_flatMap.
  - rewrite !outcome_map. by destruct (ParseResult.outcome self).
  - rewrite outcome_bimap, outcome_map, outcome_mapLeft.
    by destruct (ParseResult.outcome self).
Qed.

(** ** More on [partial] *)

Lemma insert_map {A B : Type} (O : Order.Order A) (O' : Order.Order B)
    (g : A -> B) (x : A) (l : list A) :
  (forall a b, O' (g a) (g b) = O a b) ->
  List.map g (RA.insert O x l) = RA.insert O' (g x) (List.map g l).
Proof.
  intros Hg. induction l as [|y l IH]; simpl; [done|].
  rewrite Hg. destruct (O x y); simpl; by rewrite ?IH.
Qed.

Lemma sort_map {A B : Type} (O : Order.Order A) (O' : Order.Order B)
    (g : A -> B) (l : list A) :
  (forall a b, O' (g a) (g b) = O a b) ->
  List.map g (RA.sort O l) = RA.sort O' (List.map g l).
Proof.
  intros Hg. induction l as [|x l IH]; simpl; [done|].
  by rewrite (insert_map O O'), IH.
Qed.

Lemma sortByCardinalityAsc_makeOptional (fields : list Field) :
  sortByCardinalityAsc (List.map makeOptional fields) =
  List.map makeOptional (sortByCardinalityAsc fields).
Proof. symmetry. by apply sort_map. Qed.

(** X21: on a Struct built by [struct], [partial] keeps the stored order, the
    keys, the values and the index signatures, and only raises the optional
    flag of every field; it leaves the property keys unchanged, drops the
    annotations and the [allowUnexpected] flag of the node, and applying it
    twice is applying it once. *)
Theorem partial_of_struct_keeps_stored_order (equals : AST -> AST -> bool)
    (fields : list Field) (indexSignatures : list IndexSignature)
    (annotations : option Annotations) (allowUnexpected : option bool) :
  let stored := struct fields indexSignatures annotations allowUnexpected in
  partial equals stored =
    Struct (List.map makeOptional (fieldsOf stored)) (indexSignaturesOf stored)
           ∅ false /\
  propertyKeys (partial equals stored) = propertyKeys stored /\
  partial equals (partial equals stored) = partial equals stored.
Proof.
  simpl. unfold struct. simpl.
  assert (Hmap : forall l : list Field,
            List.map (fun f => field (fd_key f) (fd_value f) true (fd_isReadonly f)
                                (Some (fd_annotations f))) l =
            List.map makeOptional l) by done.
  rewrite !Hmap, sortByCardinalityAsc_makeOptional.
  rewrite !sortByCardinalityAsc_idempotent.
  split_and!; [done| |].
  - f_equal. rewrite map_map. by apply map_ext.
  - rewrite map_map, sortByCardinalityAsc_makeOptional.
    by rewrite !sortByCardinalityAsc_idempotent.
Qed.

(** X22: [partial] of a tuple is a tuple of the same weight whose elements are
    all optional, so that no required element follows an optional one; a
    required element can be appended to it only while it has no element, and
    an optional element only while it has no rest. *)
Theorem partial_of_tuple_is_all_optional (equals : AST -> AST -> bool)
    (node : TupleNode) :
  exists node',
    partial equals (Tuple node) = Tuple node' /\
    getWeight (Tuple node') = getWeight (Tuple node) /\
    Forall (fun e => el_isOptional e = true) (elements node') /\
    requiredFirst (elements node') /\
    List.map el_type (elements node') = List.map el_type (elements node) /\
    (forall e given,
       isOk (appendElement node' e given) =
       if el_isOptional e
       then match rest node with None => true | Some _ => false end
       else match elements node with [] => true | _ => false end).
Proof.
  eexists. split; [reflexivity|]. simpl.
  assert (Hall : Forall (fun e : Element => el_isOptional e = true)
                   (List.map (fun e => element (el_type e) true None)
                             (elements node))).
  { apply Forall_forall. intros e He.
    by apply list_elem_of_In, in_map_iff in He as (? & <- & _). }
  split_and!.
  - rewrite length_map. by destruct (rest node).
  - done.
  - unfold requiredFirst. clear Hall.
    induction (elements node) as [|e es IH]; simpl; constructor; [done|].
    apply Forall_forall. intros e' He' _.
    by apply list_elem_of_In, in_map_iff in He' as (? & <- & _).
  - rewrite map_map. by apply map_ext.
  - intros e given. unfold appendElement. simpl.
    destruct (el_isOptional e) eqn:He.
    + rewrite andb_false_r. by destruct (rest node).
    + destruct (elements node) as [|e0 es]; simpl; [|done].
      by destruct (rest node).
Qed.
